(** * Anthropic provider bridge: format translator, stream parser,
      credential resolution and OAuth session manager.

    Shallow embedding of
      - packages/core/src/provider/anthropic.ts   (AnthropicContentGenerator)
      - packages/core/src/auth/anthropic.ts       (token storage and refresh)
      - packages/cli/src/config/anthropicAuth.ts  (OAuth flow)
    JavaScript strings are modelled as [string] (sequences of characters),
    token counts as [Z], configuration numbers as rationals with a NaN,
    thrown exceptions as the [Throw] arm of [Outcome]. *)

From Stdlib Require Import String Ascii List ZArith QArith Qround Bool Lia DecimalString.
Import ListNotations.
Open Scope string_scope.

(* ================================================================== *)
(** ** JavaScript primitives used by the sources *)
(* ================================================================== *)

Module Js.

(** A thrown exception carries the message of its [Error]. *)
Inductive Outcome (A : Type) : Type :=
| Ok (a : A)
| Throw (msg : string).
Arguments Ok {A} a.
Arguments Throw {A} msg.

(** Truthiness of a string: every string but the empty one. *)
Definition truthy (s : string) : bool :=
  match s with
  | EmptyString => false
  | String _ _ => true
  end.

(** Truthiness of a possibly undefined (or null) string. *)
Definition truthy_opt (s : option string) : bool :=
  match s with
  | Some v => truthy v
  | None => false
  end.

(** [a || b] on possibly undefined strings. *)
Definition or_opt (a b : option string) : option string :=
  if truthy_opt a then a else b.

(** [a || d] where [d] is a string literal. *)
Definition or_str (a : option string) (d : string) : string :=
  match a with
  | Some v => if truthy v then v else d
  | None => d
  end.

(** [n || 0] on a possibly undefined count. *)
Definition or_zero (n : option Z) : Z :=
  match n with
  | Some v => if (v =? 0)%Z then 0%Z else v
  | None => 0%Z
  end.

(** JavaScript numbers as far as the translator looks at them:
    a rational value or NaN.  The falsy numbers are 0 and NaN. *)
Inductive number : Type :=
| Num (q : Q)
| NaN.

Definition number_truthy (n : number) : bool :=
  match n with
  | Num q => negb (Qeq_bool q 0)
  | NaN => false
  end.

(** [x || d] on a possibly undefined number. *)
Definition or_number (x : option number) (d : number) : number :=
  match x with
  | Some n => if number_truthy n then n else d
  | None => d
  end.

(** [xs.join('')] *)
Fixpoint join (xs : list string) : string :=
  match xs with
  | [] => EmptyString
  | x :: r => x ++ join r
  end.

Definition LF : ascii := ascii_of_nat 10.
Definition ESC : ascii := ascii_of_nat 27.

(** White space removed by [trim] (within the ASCII range). *)
Definition is_space (c : ascii) : bool :=
  let n := nat_of_ascii c in
  (Nat.leb 9 n && Nat.leb n 13) || Nat.eqb n 32.

Fixpoint trimStart (s : string) : string :=
  match s with
  | EmptyString => EmptyString
  | String c r => if is_space c then trimStart r else s
  end.

(** [trimEnd], by recursion from the left: a suffix of blanks disappears. *)
Fixpoint trimEnd (s : string) : string :=
  match s with
  | EmptyString => EmptyString
  | String c r =>
      match trimEnd r with
      | EmptyString => if is_space c then EmptyString else String c EmptyString
      | r' => String c r'
      end
  end.

Definition trim (s : string) : string := trimEnd (trimStart s).

(** [s.startsWith(p)] *)
Definition startsWith (s p : string) : bool := String.prefix p s.

(** [s.slice(n)] for a non-negative [n]. *)
Fixpoint slice (n : nat) (s : string) : string :=
  match n, s with
  | O, _ => s
  | S _, EmptyString => EmptyString
  | S k, String _ r => slice k r
  end.

(** [s.includes(p)] *)
Fixpoint includes (s p : string) : bool :=
  String.prefix p s ||
  match s with
  | EmptyString => false
  | String _ r => includes r p
  end.

(** [s.split('\n')]: never empty, the last element is the text after the
    last line feed. *)
Fixpoint split_lf (s : string) : list string :=
  match s with
  | EmptyString => [EmptyString]
  | String c r =>
      if Ascii.eqb c LF then EmptyString :: split_lf r
      else match split_lf r with
           | h :: t => String c h :: t
           | [] => [String c EmptyString]
           end
  end.

(** [s.split('#')] *)
Fixpoint split_on (d : ascii) (s : string) : list string :=
  match s with
  | EmptyString => [EmptyString]
  | String c r =>
      if Ascii.eqb c d then EmptyString :: split_on d r
      else match split_on d r with
           | h :: t => String c h :: t
           | [] => [String c EmptyString]
           end
  end.

(** [xs.pop()]: the removed last element ([None] for undefined) and the
    array that is left. *)
Fixpoint pop {A} (xs : list A) : option A * list A :=
  match xs with
  | [] => (None, [])
  | x :: r =>
      match r with
      | [] => (Some x, [])
      | _ :: _ => let (l, r') := pop r in (l, x :: r')
      end
  end.

End Js.
Import Js.

(* ================================================================== *)
(** ** Format translator (AnthropicContentGenerator, pure part) *)
(* ================================================================== *)

Module Translator.

(** A part of a turn: ['text' in part] holds for [TextPart] only. *)
Inductive Part : Type :=
| TextPart (text : string)
| InlineDataPart (mimeType data : string)
| FunctionCallPart (name : string).

Definition part_has_text (p : Part) : bool :=
  match p with
  | TextPart _ => true
  | _ => false
  end.

Definition part_text (p : Part) : string :=
  match p with
  | TextPart t => t
  | _ => EmptyString
  end.

(** One value of [request.contents] that is not an array. *)
Inductive Single : Type :=
| SString (s : string)
| SContent (role : option string) (parts : list Part)
| SPart (p : Part).

(** One element of the content array. *)
Inductive Item : Type :=
| ISingle (x : Single)
| IParts (parts : list Part).

Inductive Contents : Type :=
| NoContents
| OneContent (x : Single)
| ContentArray (xs : list Item).

Record GenerationConfig : Type := {
  maxOutputTokens : option number;
  temperature : option number
}.

Record GenerateContentRequest : Type := {
  contents : Contents;
  config : option GenerationConfig
}.

Record Message : Type := { role : string; content : string }.

Record AnthropicRequest : Type := {
  model : string;
  max_tokens : number;
  messages : list Message;
  req_temperature : number
}.

Record AnthropicConfig : Type := {
  apiKey : option string;
  cfg_model : string;
  baseUrl : option string
}.

(** [if (request.contents)]: an absent value and the empty string are falsy. *)
Definition contents_truthy (c : Contents) : bool :=
  match c with
  | NoContents => false
  | OneContent (SString s) => truthy s
  | _ => true
  end.

(** [Array.isArray(request.contents) ? request.contents : [request.contents]] *)
Definition contentArray (c : Contents) : list Item :=
  match c with
  | NoContents => []
  | OneContent x => [ISingle x]
  | ContentArray xs => xs
  end.

Definition mapRole (r : option string) : string :=
  match r with
  | Some s => if String.eqb s "model" then "assistant" else "user"
  | None => "user"
  end.

(** The inner loop of the Content branch: one push per part with a truthy text. *)
Fixpoint push_parts (r : option string) (parts : list Part) : list Message :=
  match parts with
  | [] => []
  | TextPart t :: rest =>
      if truthy t
      then {| role := mapRole r; content := t |} :: push_parts r rest
      else push_parts r rest
  | _ :: rest => push_parts r rest
  end.

(** The messages pushed for one element of the content array. *)
Definition push_item (it : Item) : list Message :=
  match it with
  | ISingle (SString s) => [{| role := "user"; content := s |}]
  | IParts parts =>
      let text := join (map part_text (filter part_has_text parts)) in
      if truthy text then [{| role := "user"; content := text |}] else []
  | ISingle (SContent r parts) => push_parts r parts
  | ISingle (SPart _) => []
  end.

Definition convertToAnthropicFormat (cfg : AnthropicConfig)
    (request : GenerateContentRequest) : AnthropicRequest :=
  let messages :=
    if contents_truthy (contents request)
    then flat_map push_item (contentArray (contents request))
    else [] in
  {| model := cfg_model cfg;
     max_tokens :=
       or_number (match config request with
                  | Some c => maxOutputTokens c
                  | None => None
                  end) (Num 4096);
     messages := messages;
     req_temperature :=
       or_number (match config request with
                  | Some c => temperature c
                  | None => None
                  end) (Num (7 # 10)) |}.

(** *** Response side *)

Inductive FinishReason : Type := STOP | MAX_TOKENS | OTHER.

Record ContentBlock : Type := { block_type : string; block_text : string }.

Record Usage : Type := { input_tokens : Z; output_tokens : Z }.

Record AnthropicResponse : Type := {
  resp_content : list ContentBlock;
  stop_reason : string;
  usage : Usage
}.

Record Candidate : Type := {
  cand_parts : list string;
  cand_role : string;
  finishReason : option FinishReason;
  index : Z
}.

Record UsageMetadata : Type := {
  promptTokenCount : Z;
  candidatesTokenCount : Z;
  totalTokenCount : Z
}.

Record GenerateContentResponse : Type := {
  candidates : list Candidate;
  usageMetadata : UsageMetadata;
  text : string
}.

Definition mapFinishReason (stopReason : string) : FinishReason :=
  if String.eqb stopReason "end_turn" then STOP
  else if String.eqb stopReason "max_tokens" then MAX_TOKENS
  else if String.eqb stopReason "stop_sequence" then STOP
  else OTHER.

Definition is_text_block (b : ContentBlock) : bool :=
  String.eqb (block_type b) "text".

Definition convertToGeminiFormat (response : AnthropicResponse)
    : GenerateContentResponse :=
  let text := join (map block_text (filter is_text_block (resp_content response))) in
  {| candidates :=
       [{| cand_parts := [text];
           cand_role := "model";
           finishReason := Some (mapFinishReason (stop_reason response));
           index := 0 |}];
     usageMetadata :=
       {| promptTokenCount := input_tokens (usage response);
          candidatesTokenCount := output_tokens (usage response);
          totalTokenCount :=
            input_tokens (usage response) + output_tokens (usage response) |};
     text := text |}.

Definition createStreamResponse (text : string) (inputTokens outputTokens : Z)
    : GenerateContentResponse :=
  {| candidates :=
       [{| cand_parts := [text];
           cand_role := "model";
           finishReason := None;
           index := 0 |}];
     usageMetadata :=
       {| promptTokenCount := inputTokens;
          candidatesTokenCount := outputTokens;
          totalTokenCount := inputTokens + outputTokens |};
     text := text |}.

End Translator.
Import Translator.

(* ================================================================== *)
(** ** Stream event parser (the read loop of streamGenerator) *)
(* ================================================================== *)

Module Stream.

(** The text of the stream is modelled by its bytes: a line feed is a
    byte of its own in UTF-8, and the streaming decoder hands a character
    that a chunk boundary cuts to the next chunk, so that decoding commutes
    with the concatenation of chunks. *)

(** What the loop reads of a parsed event: [parsed.type],
    [parsed.message?.usage?.input_tokens], [parsed.delta?.text] and
    [parsed.usage?.output_tokens]; [None] stands for undefined.  The
    counts are numbers and the text is a string, as the wire format has
    them. *)
Record ParsedEvent : Type := {
  ev_type : option string;
  message_usage_input_tokens : option Z;
  delta_text : option string;
  usage_output_tokens : option Z
}.

(** The two running counters of one streaming call. *)
Record Counters : Type := {
  totalInputTokens : Z;
  totalOutputTokens : Z
}.

(** After a line: go on with the next one, or leave the generator. *)
Inductive Signal : Type := Next | Return.

Definition type_is (parsed : ParsedEvent) (name : string) : bool :=
  match ev_type parsed with
  | Some t => String.eqb t name
  | None => false
  end.

(** The if/else chain on [parsed.type]. *)
Definition dispatch (c : Counters) (parsed : ParsedEvent)
    : Counters * list GenerateContentResponse * Signal :=
  if type_is parsed "message_start" then
    ({| totalInputTokens := or_zero (message_usage_input_tokens parsed);
        totalOutputTokens := totalOutputTokens c |}, [], Next)
  else if type_is parsed "content_block_delta" then
    let text := or_str (delta_text parsed) EmptyString in
    if truthy text
    then (c, [createStreamResponse text (totalInputTokens c) (totalOutputTokens c)], Next)
    else (c, [], Next)
  else if type_is parsed "message_delta" then
    ({| totalInputTokens := totalInputTokens c;
        totalOutputTokens := or_zero (usage_output_tokens parsed) |}, [], Next)
  else if type_is parsed "message_stop" then (c, [], Return)
  else (c, [], Next).

Section Parser.

(** [JSON.parse] followed by the reads above; [None] when the payload is
    not JSON or is the JSON null, both of which throw inside the
    [try] block and land in its [catch]. *)
Variable JSON_parse : string -> option ParsedEvent.

(** The body of [for (const line of lines)]. *)
Definition process_line (c : Counters) (line : string)
    : Counters * list GenerateContentResponse * Signal :=
  if String.eqb (trim line) EmptyString then (c, [], Next)
  else if startsWith line "data: " then
    let data := slice 6 line in
    if String.eqb data "[DONE]" then (c, [], Return)
    else match JSON_parse data with
         | Some parsed => dispatch c parsed
         | None => (c, [], Next)
         end
  else (c, [], Next).

Fixpoint process_lines (c : Counters) (lines : list string)
    : Counters * list GenerateContentResponse * Signal :=
  match lines with
  | [] => (c, [], Next)
  | line :: rest =>
      match process_line c line with
      | (c', out, Return) => (c', out, Return)
      | (c', out, Next) =>
          let '(c'', out', sig) := process_lines c' rest in
          (c'', (out ++ out')%list, sig)
      end
  end.

(** One turn of [while (true)] with a chunk at hand: the buffer grows by
    the chunk, gives up its complete lines and keeps the rest. *)
Definition read_chunk (buffer : string) (c : Counters) (value : string)
    : string * Counters * list GenerateContentResponse * Signal :=
  let buffer1 := buffer ++ value in
  let (last, lines) := pop (split_lf buffer1) in
  let buffer2 := or_str last EmptyString in
  let '(c', out, sig) := process_lines c lines in
  (buffer2, c', out, sig).

(** The loop over the chunks the reader delivers; the end of the list is
    [done].  Besides the yielded responses the result shows the buffer
    and the counters the loop is left with, and whether it was left by
    a [return] ([Return]) or by [break] ([Next]). *)
Fixpoint read_loop (buffer : string) (c : Counters) (chunks : list string)
    : string * Counters * list GenerateContentResponse * Signal :=
  match chunks with
  | [] => (buffer, c, [], Next)
  | value :: later =>
      match read_chunk buffer c value with
      | (buffer', c', out, Return) => (buffer', c', out, Return)
      | (buffer', c', out, Next) =>
          let '(buffer'', c'', out', sig) := read_loop buffer' c' later in
          (buffer'', c'', (out ++ out')%list, sig)
      end
  end.

Definition initial : Counters :=
  {| totalInputTokens := 0; totalOutputTokens := 0 |}.

Definition yielded {S T U} (r : S * T * list GenerateContentResponse * U)
    : list GenerateContentResponse :=
  snd (fst r).

Definition streamGenerator (chunks : list string)
    : list GenerateContentResponse :=
  yielded (read_loop EmptyString initial chunks).

End Parser.

(** The lines of a text that end in a line feed, and what follows the
    last line feed. *)
Fixpoint cut (s : string) : list string * string :=
  match s with
  | EmptyString => ([], EmptyString)
  | String c r =>
      let (ls, f) := cut r in
      if Ascii.eqb c LF then (EmptyString :: ls, f)
      else match ls with
           | [] => ([], String c f)
           | h :: t => (String c h :: t, f)
           end
  end.

Definition complete_lines (s : string) : list string := fst (cut s).
Definition fragment (s : string) : string := snd (cut s).

(** The text that a list of lines and an unfinished rest came from. *)
Fixpoint unlines (ls : list string) (rest : string) : string :=
  match ls with
  | [] => rest
  | l :: r => l ++ String LF (unlines r rest)
  end.

End Stream.
Import Stream.

(* ================================================================== *)
(** ** Token storage and refresh (core/src/auth/anthropic.ts) *)
(* ================================================================== *)

Module Core.

Definition CLIENT_ID : string := "9d1c250a-e61b-44d9-88ed-5944d1962f5e".

(** The record read back from anthropic-auth.json.  The file is cast to
    [OAuthTokens] without a check, so the type tag is any string. *)
Record OAuthTokens : Type := {
  type : string;
  access : string;
  refresh : string;
  expires : Z
}.

(** Bodies posted to the token endpoint. *)
Inductive TokenRequest : Type :=
| RefreshGrant (refresh_token client_id : string)
| CodeGrant (code state client_id redirect_uri code_verifier : string).

Record TokenResponse : Type := {
  access_token : string;
  refresh_token_ : string;
  expires_in : Z
}.

Record HttpResponse (Body : Type) : Type := {
  ok : bool;
  status : Z;
  statusText : string;
  body_text : string;                 (* response.text(), after its own catch *)
  body_json : Outcome Body;           (* response.json() *)
  body_chunks : option (list string)  (* what response.body delivers; None: no body *)
}.
Arguments ok {Body} _.
Arguments status {Body} _.
Arguments statusText {Body} _.
Arguments body_text {Body} _.
Arguments body_json {Body} _.
Arguments body_chunks {Body} _.

(** What [await fetch(...)] gives: a rejection or a response. *)
Inductive Fetch (Body : Type) : Type :=
| Rejected (msg : string)
| Responded (r : HttpResponse Body).
Arguments Rejected {Body} msg.
Arguments Responded {Body} r.

(** The OAuth globals of anthropicAuth.ts. *)
Record Session : Type := { verifier : string; url : string }.

Record FlowState : Type := {
  oauthSession : option Session;
  isOAuthInProgress : bool;
  isCompletingOAuth : bool;
  oauthLock : bool
}.

(** Everything outside the functions that they read or change. *)
Record World : Type := {
  authFile : option OAuthTokens;   (* None: no readable JSON file *)
  disk_ok : bool;                  (* mkdir and writeFile succeed *)
  now : Z;                         (* Date.now() *)
  env_ANTHROPIC_API_KEY : option string;
  token_calls : list TokenRequest; (* posts to the token endpoint, oldest first *)
  flow : FlowState;
  opened : list string             (* URLs handed to the browser *)
}.

Definition set_authFile (w : World) (f : option OAuthTokens) : World :=
  {| authFile := f; disk_ok := disk_ok w; now := now w;
     env_ANTHROPIC_API_KEY := env_ANTHROPIC_API_KEY w;
     token_calls := token_calls w; flow := flow w; opened := opened w |}.

Definition log_token_call (w : World) (r : TokenRequest) : World :=
  {| authFile := authFile w; disk_ok := disk_ok w; now := now w;
     env_ANTHROPIC_API_KEY := env_ANTHROPIC_API_KEY w;
     token_calls := token_calls w ++ [r]; flow := flow w; opened := opened w |}.

Definition set_flow (w : World) (f : FlowState) : World :=
  {| authFile := authFile w; disk_ok := disk_ok w; now := now w;
     env_ANTHROPIC_API_KEY := env_ANTHROPIC_API_KEY w;
     token_calls := token_calls w; flow := f; opened := opened w |}.

Definition log_opened (w : World) (u : string) : World :=
  {| authFile := authFile w; disk_ok := disk_ok w; now := now w;
     env_ANTHROPIC_API_KEY := env_ANTHROPIC_API_KEY w;
     token_calls := token_calls w; flow := flow w; opened := opened w ++ [u] |}.

(** Computations that read and change the world and may throw; the world
    changes made before a throw stay. *)
Definition M (A : Type) : Type := World -> Outcome A * World.

Definition ret {A} (a : A) : M A := fun w => (Ok a, w).
Definition throw {A} (msg : string) : M A := fun w => (Throw msg, w).
Definition bindM {A B} (m : M A) (k : A -> M B) : M B :=
  fun w => match m w with
           | (Ok a, w') => k a w'
           | (Throw e, w') => (Throw e, w')
           end.
Definition catchM {A} (m : M A) (h : string -> M A) : M A :=
  fun w => match m w with
           | (Ok a, w') => (Ok a, w')
           | (Throw e, w') => h e w'
           end.
(** [try { m } finally { f }] *)
Definition finallyM {A} (m : M A) (f : World -> World) : M A :=
  fun w => let (r, w') := m w in (r, f w').
Definition liftO {A} (o : Outcome A) : M A := fun w => (o, w).
Definition modify (f : World -> World) : M unit := fun w => (Ok tt, f w).
Definition get : M World := fun w => (Ok w, w).

Declare Scope m_scope.
Delimit Scope m_scope with M.
Notation "x <- m ;; k" := (bindM m (fun x => k))
  (at level 61, m at next level, right associativity) : m_scope.
Notation "m ;;; k" := (bindM m (fun _ => k))
  (at level 61, right associativity) : m_scope.

Section Refresh.

(** The token endpoint, as the function from the posted body to what
    comes back. *)
Variable token_endpoint : TokenRequest -> Fetch TokenResponse.

Definition post_token (r : TokenRequest) : M (HttpResponse TokenResponse) :=
  fun w => match token_endpoint r with
           | Rejected e => (Throw e, log_token_call w r)
           | Responded resp => (Ok resp, log_token_call w r)
           end.

Definition getStoredTokens : M (option OAuthTokens) :=
  fun w => (Ok (authFile w), w).

Definition storeTokens (tokens : OAuthTokens) : M unit :=
  fun w => if disk_ok w
           then (Ok tt, set_authFile w (Some tokens))
           else (Throw "Failed to store authentication tokens", w).

Definition is_oauth (t : OAuthTokens) : bool := String.eqb (type t) "oauth".

Definition getAnthropicAccessToken : M (option string) :=
  (tokens <- getStoredTokens ;;
   match tokens with
   | None => ret None
   | Some tokens =>
       if negb (is_oauth tokens) then ret None
       else
         w <- get ;;
         if truthy (access tokens) && (now w <? expires tokens)%Z
         then ret (Some (access tokens))
         else
           catchM
             (response <- post_token (RefreshGrant (refresh tokens) CLIENT_ID) ;;
              if negb (ok response) then ret None
              else
                newTokens <- liftO (body_json response) ;;
                w' <- get ;;
                storeTokens {| type := "oauth";
                               access := access_token newTokens;
                               refresh := refresh_token_ newTokens;
                               expires := now w' + expires_in newTokens * 1000 |} ;;;
                ret (Some (access_token newTokens)))
             (fun _ => ret None)
   end)%M.

Definition hasValidAnthropicTokens : M bool :=
  (token <- getAnthropicAccessToken ;;
   ret (truthy_opt token))%M.

End Refresh.

End Core.
Import Core.

(* ================================================================== *)
(** ** Content generator facade (generateContent, streamGenerator) *)
(* ================================================================== *)

Module Facade.

(** A headers object: keys in insertion order. *)
Definition Headers : Type := list (string * string).

Fixpoint header (h : Headers) (k : string) : option string :=
  match h with
  | [] => None
  | (k', v) :: r => if String.eqb k' k then Some v else header r k
  end.

Record ChatCall : Type := {
  call_url : string;
  call_headers : Headers;
  call_body : AnthropicRequest;
  call_stream : bool
}.

Definition NO_AUTH : string :=
  "No Anthropic authentication found. Please authenticate using OAuth or set ANTHROPIC_API_KEY environment variable.".

(** [`${error}`] for an [Error] with message [msg]; every thrown value is
    taken to be a plain [Error]. *)
Definition show_error (msg : string) : string := "Error: " ++ msg.

Definition show_status (n : Z) : string :=
  DecimalString.NilZero.string_of_int (Z.to_int n).

(** The headers prepared from the two credentials. *)
Definition auth_headers (apiKey oauthToken : option string) : Headers :=
  let base := [("Content-Type", "application/json");
               ("anthropic-version", "2023-06-01")] in
  if truthy_opt oauthToken then
    (base ++ [("Authorization", String.append "Bearer " (or_str oauthToken EmptyString));
              ("anthropic-beta", "oauth-2025-04-20")])%list
  else if truthy_opt apiKey then
    (base ++ [("x-api-key", or_str apiKey EmptyString)])%list
  else base.

Section Generator.

Variable token_endpoint : TokenRequest -> Fetch TokenResponse.
Variable chat_endpoint : ChatCall -> Fetch AnthropicResponse.
Variable JSON_parse : string -> option ParsedEvent.
Variable config : AnthropicConfig.

Definition the_baseUrl : string :=
  or_str (baseUrl config) "https://api.anthropic.com".

(** The opening that generateContent and streamGenerator share line by
    line: credentials, request, headers, up to the call that [fetch]
    receives; [stream] is the flag the generator adds to the body. *)
Definition prepare (stream : bool) (request : GenerateContentRequest)
    : M ChatCall :=
  (w <- get ;;
   let apiKey := or_opt (apiKey config) (env_ANTHROPIC_API_KEY w) in
   oauthToken <- getAnthropicAccessToken token_endpoint ;;
   if negb (truthy_opt apiKey) && negb (truthy_opt oauthToken)
   then throw NO_AUTH
   else
     ret {| call_url := the_baseUrl ++ "/v1/messages";
            call_headers := auth_headers apiKey oauthToken;
            call_body := convertToAnthropicFormat config request;
            call_stream := stream |})%M.

Definition api_error (r : HttpResponse AnthropicResponse) : string :=
  "Anthropic API error: " ++ show_status (status r) ++ " " ++ statusText r
  ++ " - " ++ body_text r.

Definition fetch_chat (c : ChatCall) : M (HttpResponse AnthropicResponse) :=
  match chat_endpoint c with
  | Rejected e => throw e
  | Responded r => if ok r then ret r else throw (api_error r)
  end.

Definition generateContent (request : GenerateContentRequest)
    : M GenerateContentResponse :=
  catchM
    (call <- prepare false request ;;
     response <- fetch_chat call ;;
     body <- liftO (body_json response) ;;
     ret (convertToGeminiFormat body))%M
    (fun e => throw ("Failed to generate content with Anthropic: " ++ show_error e)).

(** [generateContentStream] with its generator run to the end: the yielded
    responses, or what it throws. *)
Definition generateContentStream (request : GenerateContentRequest)
    : M (list GenerateContentResponse) :=
  catchM
    (call <- prepare true request ;;
     response <- fetch_chat call ;;
     match body_chunks response with
     | Some chunks => ret (streamGenerator JSON_parse chunks)
     | None => throw "No response body received from Anthropic API"
     end)%M
    (fun e => throw ("Failed to generate streaming content with Anthropic: "
                     ++ show_error e)).

End Generator.

End Facade.
Import Facade.

(* ================================================================== *)
(** ** OAuth session manager (cli/src/config/anthropicAuth.ts) *)
(* ================================================================== *)

Module OAuth.

(** What [generatePKCE()] returns. *)
Record PKCE : Type := { pkce_verifier : string; challenge : string }.

Definition REDIRECT_URI : string :=
  "https://console.anthropic.com/oauth/code/callback".

(** [url.toString()] after the eight [searchParams.set]; verifier and
    challenge are base64url text, which the serializer leaves as it is. *)
Definition generateAuthorizationUrl (pkce : PKCE) : Session :=
  {| verifier := pkce_verifier pkce;
     url := "https://claude.ai/oauth/authorize?code=true&client_id=" ++ CLIENT_ID
            ++ "&response_type=code"
            ++ "&redirect_uri=https%3A%2F%2Fconsole.anthropic.com%2Foauth%2Fcode%2Fcallback"
            ++ "&scope=org%3Acreate_api_key+user%3Aprofile+user%3Ainference"
            ++ "&code_challenge=" ++ challenge pkce
            ++ "&code_challenge_method=S256"
            ++ "&state=" ++ pkce_verifier pkce |}.

(** *** Cleaning the pasted code *)

(** [s.replace(/^p/, '')] for a literal [p]. *)
Definition strip_prefix (p s : string) : string :=
  if String.prefix p s then slice (String.length p) s else s.

(** [s.replace(/p$/, '')] for a literal [p]. *)
Fixpoint strip_suffix (p s : string) : string :=
  if String.eqb s p then EmptyString
  else match s with
       | EmptyString => EmptyString
       | String c r => String c (strip_suffix p r)
       end.

Definition is_param (c : ascii) : bool :=
  let n := nat_of_ascii c in
  (Nat.leb 48 n && Nat.leb n 57) || Nat.eqb n 59.          (* [0-9;] *)

Definition is_final (c : ascii) : bool :=
  let n := nat_of_ascii c in
  Nat.eqb n 109 || Nat.eqb n 71 || Nat.eqb n 75 || Nat.eqb n 72 || Nat.eqb n 70.
                                                            (* [mGKHF] *)

Fixpoint skip_params (s : string) : string :=
  match s with
  | EmptyString => EmptyString
  | String c r => if is_param c then skip_params r else s
  end.

(** A match of ESC \[ [0-9;]* [mGKHF] at the start of [s]: what follows it. *)
Definition ansi_match (s : string) : option string :=
  match s with
  | String e (String b r) =>
      if Ascii.eqb e ESC && Ascii.eqb b "["%char then
        match skip_params r with
        | String f r' => if is_final f then Some r' else None
        | EmptyString => None
        end
      else None
  | _ => None
  end.

(** The global replace, left to right; every step uses up a character. *)
Fixpoint strip_ansi (fuel : nat) (s : string) : string :=
  match fuel with
  | O => s
  | S k =>
      match ansi_match s with
      | Some r => strip_ansi k r
      | None =>
          match s with
          | EmptyString => EmptyString
          | String c r => String c (strip_ansi k r)
          end
      end
  end.

Definition remove_ansi (s : string) : string := strip_ansi (S (String.length s)) s.

Definition clean (code : string) : string :=
  trim (remove_ansi
          (strip_suffix "_"
             (strip_suffix "[201~"
                (strip_prefix "[200~" (trim code))))).

Definition dquote : string := String (ascii_of_nat 34) EmptyString.

Definition NO_CODE : string := "No authorization code found in input".
Definition too_short (authCode : string) : string :=
  "Authorization code seems too short: " ++ dquote ++ authCode ++ dquote
  ++ ". Please check your input.".
Definition NO_SESSION : string :=
  "No active OAuth session. Please start the OAuth flow first.".
Definition COMPLETING : string :=
  "OAuth completion already in progress. Please wait...".

(** The texts shown with the URL, by the branch that returns them. *)
Inductive FlowMessage : Type :=
| InProgressAfterLock
| AlreadyAuthenticated
| InProgress
| Started.

Record FlowResult : Type := { res_url : string; message : FlowMessage }.

Definition idle : FlowState :=
  {| oauthSession := None; isOAuthInProgress := false;
     isCompletingOAuth := false; oauthLock := false |}.

Definition set_lock (b : bool) (w : World) : World :=
  set_flow w {| oauthSession := oauthSession (flow w);
                isOAuthInProgress := isOAuthInProgress (flow w);
                isCompletingOAuth := isCompletingOAuth (flow w);
                oauthLock := b |}.

Definition set_inProgress (b : bool) (w : World) : World :=
  set_flow w {| oauthSession := oauthSession (flow w);
                isOAuthInProgress := b;
                isCompletingOAuth := isCompletingOAuth (flow w);
                oauthLock := oauthLock (flow w) |}.

Definition set_completing (b : bool) (w : World) : World :=
  set_flow w {| oauthSession := oauthSession (flow w);
                isOAuthInProgress := isOAuthInProgress (flow w);
                isCompletingOAuth := b;
                oauthLock := oauthLock (flow w) |}.

Definition set_session (s : option Session) (w : World) : World :=
  set_flow w {| oauthSession := s;
                isOAuthInProgress := isOAuthInProgress (flow w);
                isCompletingOAuth := isCompletingOAuth (flow w);
                oauthLock := oauthLock (flow w) |}.

(** The four assignments that end both arms of the completion. *)
Definition clear_all (w : World) : World := set_flow w idle.

Section Flow.

Variable token_endpoint : TokenRequest -> Fetch TokenResponse.

(** [new URL(s).searchParams.get]: [None] when the constructor throws,
    otherwise the lookup ([None] for null). *)
Variable URL_searchParams : string -> option (string -> option string).

(** The code and the state found in the cleaned input. *)
Definition parse_input (cleaned : string) : Outcome (string * string) :=
  if includes cleaned "?code=" then
    match URL_searchParams cleaned with
    | Some get_param =>
        Ok (or_str (get_param "code") EmptyString,
            or_str (get_param "state") EmptyString)
    | None => Throw "Invalid callback URL format"
    end
  else if includes cleaned "#" then
    let splits := split_on "#"%char cleaned in
    Ok (nth 0 splits EmptyString, or_str (nth_error splits 1) EmptyString)
  else Ok (cleaned, EmptyString).

Definition exchange_error (r : HttpResponse TokenResponse) : string :=
  "Token exchange failed: " ++ show_status (status r) ++ " " ++ statusText r
  ++ " - " ++ body_text r.

Definition exchangeCodeForTokens (code verifier : string) : M unit :=
  (parsed <- liftO (parse_input (clean code)) ;;
   let authCode := fst parsed in
   let receivedState := snd parsed in
   if negb (truthy authCode) then throw NO_CODE
   else if Nat.ltb (String.length authCode) 10 then throw (too_short authCode)
   else
     let stateToUse := if truthy receivedState then receivedState else verifier in
     response <- post_token token_endpoint
                   (CodeGrant authCode stateToUse CLIENT_ID REDIRECT_URI verifier) ;;
     if negb (ok response) then throw (exchange_error response)
     else
       tokens <- liftO (body_json response) ;;
       w <- get ;;
       storeTokens {| type := "oauth";
                      access := access_token tokens;
                      refresh := refresh_token_ tokens;
                      expires := now w + expires_in tokens * 1000 |})%M.

(** [openUrl]: the attempt is recorded; a failure to open is caught and
    only logged. *)
Definition openUrl (u : string) : M unit := modify (fun w => log_opened w u).

Definition startAnthropicOAuthFlow (pkce : PKCE) : M FlowResult :=
  (w <- get ;;
   match (if oauthLock (flow w) then oauthSession (flow w) else None) with
   | Some s => ret {| res_url := url s; message := InProgressAfterLock |}
   | None =>
       modify (set_lock true) ;;;
       finallyM
         (valid <- hasValidAnthropicTokens token_endpoint ;;
          if (valid : bool)
          then ret {| res_url := EmptyString; message := AlreadyAuthenticated |}
          else
            w1 <- get ;;
            match (if isOAuthInProgress (flow w1) || isCompletingOAuth (flow w1)
                   then oauthSession (flow w1) else None) with
            | Some s => ret {| res_url := url s; message := InProgress |}
            | None =>
                modify (set_inProgress true) ;;;
                let s := generateAuthorizationUrl pkce in
                modify (set_session (Some s)) ;;;
                openUrl (url s) ;;;
                ret {| res_url := url s; message := Started |}
            end)
         (set_lock false)
   end)%M.

Definition completeAnthropicOAuthWithCode (code : string) : M unit :=
  (w <- get ;;
   match oauthSession (flow w) with
   | None => throw NO_SESSION
   | Some session =>
       if isCompletingOAuth (flow w) then throw COMPLETING
       else
         modify (set_completing true) ;;;
         catchM
           (exchangeCodeForTokens code (verifier session) ;;;
            modify clear_all)
           (fun error => modify clear_all ;;; throw error)
   end)%M.

Definition clearOAuthSession : M unit := modify clear_all.

End Flow.

End OAuth.
Import OAuth.

(* ================================================================== *)
(** ** Token estimate and embedding (countTokens, embedContent) *)
(* ================================================================== *)

Module Estimate.

Section Count.

(** [JSON.stringify(request.contents)] *)
Variable JSON_stringify : Contents -> string.

(** [Math.ceil(content.length / 4)] *)
Definition countTokens (contents : Contents) : Z :=
  Qceiling (Z.of_nat (String.length (JSON_stringify contents)) # 4).

End Count.

Definition embedContent : M unit :=
  throw "Embedding is not supported by Anthropic Claude".

End Estimate.
Import Estimate.

(* ================================================================== *)
(** ** Validation of the selected auth method (cli/src/config/auth.ts) *)
(* ================================================================== *)

Module AuthMethod.

(** The variables of [process.env] that the validation reads, after
    [loadEnvironment()]; ANTHROPIC_API_KEY is the one of the world. *)
Record Env : Type := {
  GEMINI_API_KEY : option string;
  GOOGLE_CLOUD_PROJECT : option string;
  GOOGLE_CLOUD_LOCATION : option string;
  GOOGLE_API_KEY : option string
}.

Definition GEMINI_KEY_MISSING : string :=
  "GEMINI_API_KEY environment variable not found. Add that to your .env and try again, no reload needed!".

Definition VERTEX_CONFIG_MISSING : string :=
  "Must specify GOOGLE_GENAI_USE_VERTEXAI=true and either:"
  ++ String LF "• GOOGLE_CLOUD_PROJECT and GOOGLE_CLOUD_LOCATION environment variables."
  ++ String LF "• GOOGLE_API_KEY environment variable (if using express mode)."
  ++ String LF "Update your .env and try again, no reload needed!".

Definition OAUTH_REQUIRED : string := "anthropic_oauth_required".
Definition INVALID_METHOD : string := "Invalid auth method selected.".

Section Validate.

(** The members of the enum AuthType of the core package. *)
Variables LOGIN_WITH_GOOGLE_PERSONAL USE_GEMINI USE_VERTEX_AI
          USE_ANTHROPIC_CLAUDE : string.

Variable token_endpoint : TokenRequest -> Fetch TokenResponse.

(** The result is the error text, [None] for null. *)
Definition validateAuthMethod (env : Env) (w : World) (authMethod : string)
    : option string :=
  if String.eqb authMethod LOGIN_WITH_GOOGLE_PERSONAL then None
  else if String.eqb authMethod USE_GEMINI then
    if negb (truthy_opt (GEMINI_API_KEY env)) then Some GEMINI_KEY_MISSING else None
  else if String.eqb authMethod USE_VERTEX_AI then
    let hasVertexProjectLocationConfig :=
      truthy_opt (GOOGLE_CLOUD_PROJECT env) && truthy_opt (GOOGLE_CLOUD_LOCATION env) in
    let hasGoogleApiKey := truthy_opt (GOOGLE_API_KEY env) in
    if negb hasVertexProjectLocationConfig && negb hasGoogleApiKey
    then Some VERTEX_CONFIG_MISSING
    else None
  else if String.eqb authMethod USE_ANTHROPIC_CLAUDE then
    if truthy_opt (env_ANTHROPIC_API_KEY w) then None else Some OAUTH_REQUIRED
  else Some INVALID_METHOD.

Definition validateAuthMethodAsync (env : Env) (authMethod : string)
    : M (option string) :=
  if String.eqb authMethod USE_ANTHROPIC_CLAUDE then
    (hasTokens <- hasValidAnthropicTokens token_endpoint ;;
     if (hasTokens : bool) then ret None else ret (Some OAUTH_REQUIRED))%M
  else
    (w <- Core.get ;; ret (validateAuthMethod env w authMethod))%M.

End Validate.

End AuthMethod.
Import AuthMethod.

(* ================================================================== *)
(** ** Sequences of calls on the OAuth session manager *)
(* ================================================================== *)

Module Lifecycle.

(** One call from the user interface: the start of a flow with the PKCE
    pair it would draw, a completion with the pasted text, a cancellation. *)
Inductive Op : Type :=
| OpStart (pkce : PKCE)
| OpComplete (code : string)
| OpCancel.

Section Run.

Variable token_endpoint : TokenRequest -> Fetch TokenResponse.
Variable URL_searchParams : string -> option (string -> option string).

(** The world after the call; what the call returns or throws goes to the
    caller, who catches it. *)
Definition step (w : World) (op : Op) : World :=
  match op with
  | OpStart pkce => snd (startAnthropicOAuthFlow token_endpoint pkce w)
  | OpComplete code =>
      snd (completeAnthropicOAuthWithCode token_endpoint URL_searchParams code w)
  | OpCancel => snd (clearOAuthSession w)
  end.

Definition run (w : World) (ops : list Op) : World := fold_left step ops w.

End Run.

(** The globals between two calls: no lock, no completion under way, and
    the progress flag set exactly when a session is stored. *)
Definition settled (f : FlowState) : Prop :=
  oauthLock f = false
  /\ isCompletingOAuth f = false
  /\ (isOAuthInProgress f = true <-> oauthSession f <> None).

End Lifecycle.
Import Lifecycle.

(* ================================================================== *)
(** ** The stand-alone login script (anthropic-login.cjs, main) *)
(* ================================================================== *)

Module LoginScript.

(** What the script writes to its own credential file. *)
Record Credentials : Type := {
  cred_type : string;
  accessToken : string;
  refreshToken : string;
  expiresAt : Z
}.

(** What [makeRequest] resolves with. *)
Record Reply : Type := { reply_status : Z; reply_data : string }.

(** How a run of [main] ends: one of its early returns, the saving of the
    credentials, or the outer catch with its exit code 1. *)
Inductive Ending : Type :=
| NoInput
| NoCode
| StateMismatch
| ExchangeFailed (status : Z)
| Saved (credentials : Credentials)
| Exit1 (message : string).

Section Main.

Variable URL_searchParams : string -> option (string -> option string).

(** [makeRequest(TOKEN_URL, ...)] for the posted body; a rejection is a
    throw. *)
Variable makeRequest : TokenRequest -> Outcome Reply.

(** [JSON.parse(response.data)], read as the token response. *)
Variable JSON_parse : string -> Outcome TokenResponse.

(** The run from the answer to the prompt on: the generated verifier and
    state, the line the user entered, the clock and what the writing of
    the credential file comes to.  The result is the ending and the token
    requests posted. *)
Definition main (codeVerifier state input : string) (now : Z)
    (saveCredentials : Outcome unit) : Ending * list TokenRequest :=
  if negb (truthy (trim input)) then (NoInput, [])
  else
    let parsed :=
      if includes (trim input) "?code=" then
        match URL_searchParams (trim input) with
        | Some get_param =>
            Ok (or_str (get_param "code") EmptyString,
                or_str (get_param "state") EmptyString)
        | None => Throw "Invalid URL"
        end
      else Ok (trim input, EmptyString) in
    match parsed with
    | Throw e => (Exit1 e, [])
    | Ok (authCode, returnedState) =>
        if negb (truthy authCode) then (NoCode, [])
        else if truthy returnedState && negb (String.eqb returnedState state)
        then (StateMismatch, [])
        else
          let tokenData :=
            CodeGrant authCode state CLIENT_ID REDIRECT_URI codeVerifier in
          match makeRequest tokenData with
          | Throw e => (Exit1 e, [tokenData])
          | Ok response =>
              if negb (reply_status response =? 200)%Z
              then (ExchangeFailed (reply_status response), [tokenData])
              else
                match JSON_parse (reply_data response) with
                | Throw e => (Exit1 e, [tokenData])
                | Ok tokenResponse =>
                    match saveCredentials with
                    | Ok _ =>
                        (Saved {| cred_type := "oauth";
                                  accessToken := access_token tokenResponse;
                                  refreshToken := refresh_token_ tokenResponse;
                                  expiresAt := now + expires_in tokenResponse * 1000 |},
                         [tokenData])
                    | Throw e => (Exit1 e, [tokenData])
                    end
                end
          end
    end.

End Main.

End LoginScript.
Import LoginScript.

(* ================================================================== *)
(** ** Specification-side definitions *)
(* ================================================================== *)

(** The text of a response as the specification words it: the texts of
    the blocks typed text, one after the other. *)
Fixpoint spec_text_of_blocks (bs : list ContentBlock) : string :=
  match bs with
  | [] => EmptyString
  | b :: r =>
      if String.eqb (block_type b) "text"
      then block_text b ++ spec_text_of_blocks r
      else spec_text_of_blocks r
  end.

(** A turn of two text parts, and the one message the specification
    expects for it. *)
Definition two_part_request : GenerateContentRequest :=
  {| contents :=
       ContentArray
         [ISingle (SContent (Some "user") [TextPart "Hello, "; TextPart "Claude!"])];
     config := None |}.

Definition test_config : AnthropicConfig :=
  {| apiKey := Some "test-api-key";
     cfg_model := "claude-sonnet-4-20250514";
     baseUrl := None |}.

(** The two counters a response carries. *)
Definition counts_of (r : GenerateContentResponse) : Z * Z :=
  (promptTokenCount (usageMetadata r), candidatesTokenCount (usageMetadata r)).

(** The text cut into chunks of one character each. *)
Fixpoint chars (s : string) : list string :=
  match s with
  | EmptyString => []
  | String c r => String c EmptyString :: chars r
  end.

(** A payload reader for the examples: S is a message_start with five
    input tokens, D a content_block_delta with the text hi. *)
Definition sample_parse (data : string) : option ParsedEvent :=
  if String.eqb data "S" then
    Some {| ev_type := Some "message_start";
            message_usage_input_tokens := Some 5%Z;
            delta_text := None;
            usage_output_tokens := None |}
  else if String.eqb data "D" then
    Some {| ev_type := Some "content_block_delta";
            message_usage_input_tokens := None;
            delta_text := Some "hi";
            usage_output_tokens := None |}
  else None.

Definition sample_text : string :=
  "data: S" ++ String LF ("data: D" ++ String LF "data: D").

(** *** Worlds and endpoints for the examples *)

(** A token endpoint that cannot be reached. *)
Definition offline (_ : TokenRequest) : Fetch TokenResponse := Rejected "fetch failed".

(** A token endpoint that grants what it is asked for. *)
Definition granting (_ : TokenRequest) : Fetch TokenResponse :=
  Responded {| ok := true; status := 200; statusText := "OK";
               body_text := EmptyString;
               body_json := Ok {| access_token := "new-access";
                                  refresh_token_ := "new-refresh";
                                  expires_in := 3600 |};
               body_chunks := None |}.

(** No URL parser is needed for inputs without a query. *)
Definition no_url (_ : string) : option (string -> option string) := None.

Definition at_rest (file : option OAuthTokens) : World :=
  {| authFile := file; disk_ok := true; now := 1000;
     env_ANTHROPIC_API_KEY := None; token_calls := [];
     flow := idle; opened := [] |}.

(** An unexpired OAuth record. *)
Definition valid_tokens : OAuthTokens :=
  {| type := "oauth"; access := "tok"; refresh := "ref"; expires := 2000 |}.

(** An unexpired OAuth record whose access token is the empty string. *)
Definition empty_access_tokens : OAuthTokens :=
  {| type := "oauth"; access := EmptyString; refresh := "ref"; expires := 2000 |}.

(** A stored API key record. *)
Definition api_record : OAuthTokens :=
  {| type := "api"; access := EmptyString; refresh := EmptyString; expires := 0 |}.

Definition hello_request : GenerateContentRequest :=
  {| contents := ContentArray [ISingle (SContent (Some "user") [TextPart "Hello, Claude!"])];
     config := None |}.

Definition headers_of (r : Outcome ChatCall) : Headers :=
  match r with
  | Ok call => call_headers call
  | Throw _ => []
  end.

Definition pkce1 : PKCE := {| pkce_verifier := "verifier-1"; challenge := "challenge-1" |}.
Definition pkce2 : PKCE := {| pkce_verifier := "verifier-2"; challenge := "challenge-2" |}.

(** A world in which a flow has been started and awaits its code. *)
Definition awaiting_code : World :=
  {| authFile := None; disk_ok := true; now := 1000;
     env_ANTHROPIC_API_KEY := None; token_calls := [];
     flow := {| oauthSession := Some (generateAuthorizationUrl pkce1);
                isOAuthInProgress := true;
                isCompletingOAuth := false;
                oauthLock := false |};
     opened := [url (generateAuthorizationUrl pkce1)] |}.

(** The error messages that make up the invalid-code failure. *)
Definition InvalidCode (msg : string) : Prop :=
  msg = NO_CODE \/ exists authCode, msg = too_short authCode.

(** *** Notions used by the further properties *)

(** An element of the content array without its parts that bear no text. *)
Definition keep_text (it : Item) : Item :=
  match it with
  | ISingle (SContent r parts) => ISingle (SContent r (filter part_has_text parts))
  | IParts parts => IParts (filter part_has_text parts)
  | other => other
  end.

Definition is_bare_string (it : Item) : bool :=
  match it with
  | ISingle (SString _) => true
  | _ => false
  end.

(** A line that the stream loop acts on: a data line that is the
    sentinel or whose payload parses. *)
Definition relevant (parse : string -> option ParsedEvent) (line : string) : bool :=
  startsWith line "data: "
  && (String.eqb (slice 6 line) "[DONE]"
      || match parse (slice 6 line) with Some _ => true | None => false end).

(** The shape of a partial response. *)
Definition partial_response (r : GenerateContentResponse) : Prop :=
  text r <> EmptyString
  /\ candidates r = [{| cand_parts := [text r]; cand_role := "model";
                        finishReason := None; index := 0 |}]
  /\ totalTokenCount (usageMetadata r)
     = (promptTokenCount (usageMetadata r) + candidatesTokenCount (usageMetadata r))%Z.

(** A text without a line feed. *)
Definition one_line (s : string) : Prop := cut s = ([], s).

(** Every character of the text passes the test. *)
Fixpoint all_chars (p : ascii -> bool) (s : string) : bool :=
  match s with
  | EmptyString => true
  | String c r => p c && all_chars p r
  end.

Definition is_not (a : ascii) (c : ascii) : bool := negb (Ascii.eqb c a).

(** Characters that the cleaning of a pasted code leaves alone: no blank,
    no escape, no opening bracket, no underscore. *)
Definition tidy_char (c : ascii) : bool :=
  negb (is_space c) && is_not ESC c && is_not "["%char c && is_not "_"%char c.

(** Characters of a code or a state: tidy, and neither of the two
    characters that separate code and state. *)
Definition plain_char (c : ascii) : bool :=
  tidy_char c && is_not "#"%char c && is_not "?"%char c.

Definition tidy (s : string) : bool := all_chars tidy_char s.
Definition plain (s : string) : bool := all_chars plain_char s.
Definition blank (s : string) : bool := all_chars is_space s.

(** A chat endpoint that turns every call down, as in the test of the
    facade. *)
Definition unauthorized (_ : ChatCall) : Fetch AnthropicResponse :=
  Responded {| ok := false; status := 401; statusText := "Unauthorized";
               body_text := "Invalid API key";
               body_json := Throw "Unexpected token";
               body_chunks := None |}.

(** An expired OAuth record. *)
Definition expired_tokens : OAuthTokens :=
  {| type := "oauth"; access := "old"; refresh := "ref"; expires := 500 |}.

Definition no_env : Env :=
  {| GEMINI_API_KEY := None; GOOGLE_CLOUD_PROJECT := None;
     GOOGLE_CLOUD_LOCATION := None; GOOGLE_API_KEY := None |}.

(** A world with an API key in the environment and no stored record. *)
Definition with_env_key : World :=
  {| authFile := None; disk_ok := true; now := 1000;
     env_ANTHROPIC_API_KEY := Some "sk-ant-key"; token_calls := [];
     flow := idle; opened := [] |}.

(** A serializer for the examples: two bytes per element. *)
Definition sample_stringify (c : Contents) : string :=
  match c with
  | ContentArray xs => join (map (fun _ => "[]") xs)
  | _ => "{}"
  end.

(** A callback URL reader for the examples: it knows one URL. *)
Definition sample_url (s : string) : option (string -> option string) :=
  if String.eqb s "https://console.anthropic.com/oauth/code/callback?code=authorization-code&state=other-state"
  then Some (fun k => if String.eqb k "code" then Some "authorization-code"
                      else if String.eqb k "state" then Some "other-state"
                      else None)
  else None.

Definition accepting (_ : TokenRequest) : Outcome Reply :=
  Ok {| reply_status := 200; reply_data := "{}" |}.

Definition parse_granted (_ : string) : Outcome TokenResponse :=
  Ok {| access_token := "new-access"; refresh_token_ := "new-refresh";
        expires_in := 3600 |}.

(* ================================================================== *)
(** ** Facts about strings *)
(* ================================================================== *)

Lemma append_nil_r (s : string) : s ++ EmptyString = s.
Proof. induction s as [|c s IH]; simpl; [reflexivity | now rewrite IH]. Qed.

Lemma append_assoc (a b c : string) : (a ++ b) ++ c = a ++ (b ++ c).
Proof. induction a as [|x a IH]; simpl; [reflexivity | now rewrite IH]. Qed.

Lemma prefix_append (p s : string) : String.prefix p (p ++ s) = true.
Proof.
  induction p as [|a p IH]; cbn [append String.prefix].
  - now destruct s.
  - destruct (ascii_dec a a); [exact IH | congruence].
Qed.

Lemma trim_nonblank (c : ascii) (r : string) :
  is_space c = false -> trim (String c r) <> EmptyString.
Proof.
  intros H. unfold trim. cbn [trimStart]. rewrite H. cbn [trimEnd].
  destruct (trimEnd r); [rewrite H|]; discriminate.
Qed.

Lemma or_str_empty (v : string) : or_str (Some v) EmptyString = v.
Proof. destruct v; reflexivity. Qed.

Lemma truthy_true_iff (s : string) : truthy s = true <-> s <> EmptyString.
Proof. destruct s; simpl; split; congruence. Qed.

(* ================================================================== *)
(** ** Format translator *)
(* ================================================================== *)

Section TranslatorFacts.

Variable cfg : AnthropicConfig.

Lemma text_of_blocks_join (bs : list ContentBlock) :
  join (map block_text (filter is_text_block bs)) = spec_text_of_blocks bs.
Proof.
  induction bs as [|b bs IH]; simpl; [reflexivity|].
  unfold is_text_block at 1.
  destruct (String.eqb (block_type b) "text"); simpl; now rewrite IH.
Qed.

Lemma mapFinishReason_other (s : string) :
  s <> "end_turn" -> s <> "stop_sequence" -> s <> "max_tokens" ->
  mapFinishReason s = OTHER.
Proof.
  intros H1 H2 H3. unfold mapFinishReason.
  apply String.eqb_neq in H1, H2, H3. now rewrite H1, H2, H3.
Qed.

(** A turn with exactly one part, a non-empty text, gives one message. *)
Lemma push_single_text_part (r : option string) (t : string) :
  t <> EmptyString ->
  push_item (ISingle (SContent r [TextPart t]))
  = [{| role := mapRole r; content := t |}].
Proof.
  intros H. apply truthy_true_iff in H. simpl. now rewrite H.
Qed.

(** Where every turn has one such part the list has one entry per turn,
    in the order of the turns. *)
Lemma single_part_turns (turns : list (option string * string)) :
  Forall (fun rt => snd rt <> EmptyString) turns ->
  messages (convertToAnthropicFormat cfg
              {| contents :=
                   ContentArray
                     (map (fun rt => ISingle (SContent (fst rt) [TextPart (snd rt)])) turns);
                 config := None |})
  = map (fun rt => {| role := mapRole (fst rt); content := snd rt |}) turns.
Proof.
  intros H. simpl. induction H as [|[r t] l Ht Hl IH]; [reflexivity|].
  cbn [map flat_map fst snd]. rewrite IH.
  rewrite push_single_text_part by exact Ht. reflexivity.
Qed.

(** C1 (the code departs from the claim).  For one turn with the two text
    parts Hello and Claude! the claim asks for one message with the
    concatenated text; convertToAnthropicFormat pushes one message per
    part, so the list has two entries for one turn. *)
Theorem convert_pushes_one_message_per_part :
  messages (convertToAnthropicFormat cfg two_part_request)
  = [{| role := "user"; content := "Hello, " |};
     {| role := "user"; content := "Claude!" |}]
  /\ List.length (messages (convertToAnthropicFormat cfg two_part_request)) = 2%nat
  /\ messages (convertToAnthropicFormat cfg two_part_request)
     <> [{| role := "user"; content := "Hello, Claude!" |}].
Proof.
  repeat split; discriminate.
Qed.

(** C6.  convertToGeminiFormat yields a single candidate whose text is the
    concatenation of the texts of the blocks typed text, whose finish
    reason follows the table end_turn -> STOP, stop_sequence -> STOP,
    max_tokens -> MAX_TOKENS, anything else -> OTHER, and whose total
    token count is input_tokens + output_tokens; for stop_reason end_turn
    the finish reason is STOP and total = prompt + candidates. *)
Theorem convertToGeminiFormat_spec (response : AnthropicResponse) :
  let g := convertToGeminiFormat response in
  (exists cand,
      candidates g = [cand]
      /\ cand_parts cand = [spec_text_of_blocks (resp_content response)]
      /\ finishReason cand = Some (mapFinishReason (stop_reason response))
      /\ (stop_reason response = "end_turn" -> finishReason cand = Some STOP))
  /\ text g = spec_text_of_blocks (resp_content response)
  /\ promptTokenCount (usageMetadata g) = input_tokens (usage response)
  /\ candidatesTokenCount (usageMetadata g) = output_tokens (usage response)
  /\ totalTokenCount (usageMetadata g)
     = (input_tokens (usage response) + output_tokens (usage response))%Z
  /\ totalTokenCount (usageMetadata g)
     = (promptTokenCount (usageMetadata g) + candidatesTokenCount (usageMetadata g))%Z
  /\ mapFinishReason "end_turn" = STOP
  /\ mapFinishReason "stop_sequence" = STOP
  /\ mapFinishReason "max_tokens" = MAX_TOKENS
  /\ (forall s, s <> "end_turn" -> s <> "stop_sequence" -> s <> "max_tokens" ->
                mapFinishReason s = OTHER).
Proof.
  cbv zeta. split.
  - eexists. split; [reflexivity|]. cbn [cand_parts finishReason].
    rewrite text_of_blocks_join. repeat split.
    intros ->. reflexivity.
  - cbn [convertToGeminiFormat text usageMetadata promptTokenCount
           candidatesTokenCount totalTokenCount].
    rewrite text_of_blocks_join.
    repeat split. apply mapFinishReason_other.
Qed.

(** C9.  A configured temperature of 0 is replaced by 0.7 and a configured
    maxOutputTokens of 0 by 4096: the defaulting test takes zero for
    unspecified. *)
Theorem zero_config_takes_defaults (request : GenerateContentRequest)
    (c : GenerationConfig) :
  config request = Some c ->
  (forall q, temperature c = Some (Num q) -> q == 0 ->
             req_temperature (convertToAnthropicFormat cfg request) = Num (7 # 10))
  /\ (forall q, maxOutputTokens c = Some (Num q) -> q == 0 ->
                max_tokens (convertToAnthropicFormat cfg request) = Num 4096).
Proof.
  intros Hc. unfold convertToAnthropicFormat. rewrite Hc.
  cbn [req_temperature max_tokens].
  split; intros q Hq Hz; rewrite Hq; unfold or_number, number_truthy;
    apply Qeq_bool_iff in Hz; now rewrite Hz.
Qed.

End TranslatorFacts.

Lemma convertToGeminiFormat_spec_witness :
  exists cand,
    candidates (convertToGeminiFormat
                  {| resp_content := [{| block_type := "text"; block_text := "Hi" |}];
                     stop_reason := "end_turn";
                     usage := {| input_tokens := 10; output_tokens := 15 |} |}) = [cand]
    /\ finishReason cand = Some STOP
    /\ mapFinishReason "tool_use" = OTHER.
Proof.
  destruct (convertToGeminiFormat_spec
              {| resp_content := [{| block_type := "text"; block_text := "Hi" |}];
                 stop_reason := "end_turn";
                 usage := {| input_tokens := 10; output_tokens := 15 |} |})
    as [[cand [Hc [_ [_ Hstop]]]] [_ [_ [_ [_ [_ [_ [_ [_ Hother]]]]]]]]].
  exists cand. split; [exact Hc|]. split.
  - apply Hstop. reflexivity.
  - apply Hother; discriminate.
Defined.

Lemma zero_config_takes_defaults_witness :
  let request :=
    {| contents := ContentArray [ISingle (SContent (Some "user") [TextPart "Hi"])];
       config := Some {| maxOutputTokens := Some (Num 0); temperature := Some (Num 0) |} |} in
  req_temperature (convertToAnthropicFormat test_config request) = Num (7 # 10)
  /\ max_tokens (convertToAnthropicFormat test_config request) = Num 4096.
Proof.
  cbv zeta.
  destruct (zero_config_takes_defaults test_config
              {| contents := ContentArray [ISingle (SContent (Some "user") [TextPart "Hi"])];
                 config := Some {| maxOutputTokens := Some (Num 0);
                                   temperature := Some (Num 0) |} |}
              {| maxOutputTokens := Some (Num 0); temperature := Some (Num 0) |}
              eq_refl) as [Ht Hm].
  split.
  - apply (Ht 0); reflexivity.
  - apply (Hm 0); reflexivity.
Defined.

(* ================================================================== *)
(** ** Stream event parser *)
(* ================================================================== *)

Section Splitting.

Lemma split_lf_cons (s : string) : exists h t, split_lf s = h :: t.
Proof.
  induction s as [|c r [h [t IH]]]; simpl.
  - now exists EmptyString, [].
  - destruct (Ascii.eqb c LF); [now eexists; eexists|].
    rewrite IH. now eexists; eexists.
Qed.

Lemma pop_cons_cons {A} (x y : A) (r : list A) :
  pop (x :: y :: r) = (fst (pop (y :: r)), x :: snd (pop (y :: r))).
Proof.
  change (pop (x :: y :: r)) with (let (l, r') := pop (y :: r) in (l, x :: r')).
  now destruct (pop (y :: r)).
Qed.

(** [split] followed by [pop] is [cut]: the popped element is the
    fragment, the array that is left holds the complete lines. *)
Lemma pop_split_lf (s : string) :
  pop (split_lf s) = (Some (fragment s), complete_lines s).
Proof.
  unfold fragment, complete_lines.
  induction s as [|c r IH]; [reflexivity|].
  cbn [split_lf cut]. destruct (cut r) as [ls f]. cbn [fst snd] in IH.
  destruct (split_lf_cons r) as [h [t Hr]]. rewrite Hr in IH |- *.
  destruct (Ascii.eqb c LF).
  - rewrite pop_cons_cons, IH. reflexivity.
  - destruct t as [|y t].
    + cbn in IH. injection IH as <- <-. reflexivity.
    + rewrite pop_cons_cons. rewrite pop_cons_cons in IH.
      destruct (pop (y :: t)) as [l r']. cbn [fst snd] in IH |- *.
      injection IH as -> <-. reflexivity.
Qed.

(** Appending text to [a] leaves the complete lines of [a] alone and
    continues from its fragment. *)
Lemma cut_app (a b : string) :
  cut (a ++ b)
  = ((complete_lines a ++ complete_lines (fragment a ++ b))%list,
     fragment (fragment a ++ b)).
Proof.
  unfold complete_lines, fragment.
  induction a as [|c a IH]; cbn [append cut fst snd].
  - now destruct (cut b).
  - rewrite IH. destruct (cut a) as [la fa]. cbn [fst snd].
    destruct (Ascii.eqb c LF) eqn:Hc; cbn [fst snd]; [reflexivity|].
    destruct la as [|h t]; cbn [fst snd app append cut].
    + rewrite Hc. now destruct (cut (fa ++ b)) as [[|h' t'] f'].
    + reflexivity.
Qed.

Lemma complete_lines_app (a b : string) :
  complete_lines (a ++ b)
  = (complete_lines a ++ complete_lines (fragment a ++ b))%list.
Proof. unfold complete_lines at 1. now rewrite cut_app. Qed.

Lemma fragment_app (a b : string) :
  fragment (a ++ b) = fragment (fragment a ++ b).
Proof. unfold fragment at 1. now rewrite cut_app. Qed.

(** A fragment holds no complete line. *)
Lemma cut_fragment (s : string) : cut (fragment s) = ([], fragment s).
Proof.
  unfold fragment. induction s as [|c r IH]; [reflexivity|].
  cbn [cut]. destruct (cut r) as [ls f]. cbn [snd] in IH.
  destruct (Ascii.eqb c LF) eqn:Hc; [exact IH|].
  destruct ls; cbn [snd]; [|exact IH].
  cbn [cut]. now rewrite IH, Hc.
Qed.

(** Nothing is lost and nothing is doubled: the complete lines, each
    with its line feed, followed by the fragment are the text. *)
Lemma unlines_cut (s : string) :
  unlines (complete_lines s) (fragment s) = s.
Proof.
  unfold complete_lines, fragment. induction s as [|c r IH]; [reflexivity|].
  cbn [cut]. destruct (cut r) as [ls f]. cbn [fst snd] in IH.
  destruct (Ascii.eqb c LF) eqn:Hc.
  - apply Ascii.eqb_eq in Hc. subst c. cbn. now rewrite IH.
  - destruct ls; cbn in *; now rewrite IH.
Qed.

(** A complete line holds no line feed. *)
Lemma complete_lines_no_lf (s : string) :
  Forall (fun l => cut l = ([], l)) (complete_lines s).
Proof.
  unfold complete_lines. induction s as [|c r IH]; [constructor|].
  cbn [cut]. destruct (cut r) as [ls f]. cbn [fst] in IH.
  destruct (Ascii.eqb c LF) eqn:Hc; cbn [fst].
  - constructor; [reflexivity | exact IH].
  - destruct ls as [|h t]; [constructor|].
    inversion IH as [|? ? Hh Ht]; subst. constructor; [|exact Ht].
    cbn [cut]. now rewrite Hh, Hc.
Qed.

End Splitting.

Section ParserFacts.

Variable JSON_parse : string -> option ParsedEvent.

Lemma process_lines_app (l1 l2 : list string) (c : Counters) :
  process_lines JSON_parse c (l1 ++ l2)
  = match process_lines JSON_parse c l1 with
    | (c', out, Return) => (c', out, Return)
    | (c', out, Next) =>
        let '(c'', out', sig) := process_lines JSON_parse c' l2 in
        (c'', (out ++ out')%list, sig)
    end.
Proof.
  revert c. induction l1 as [|l l1 IH]; intros c; cbn [app Stream.process_lines].
  - now destruct (process_lines JSON_parse c l2) as [[c' out] sig].
  - destruct (process_line JSON_parse c l) as [[c1 o1] [|]]; [|reflexivity].
    rewrite IH. destruct (process_lines JSON_parse c1 l1) as [[c2 o2] [|]]; [|reflexivity].
    destruct (process_lines JSON_parse c2 l2) as [[c3 o3] sig]. now rewrite app_assoc.
Qed.

Lemma read_chunk_cut (buffer : string) (c : Counters) (value : string) :
  read_chunk JSON_parse buffer c value
  = let '(c', out, sig) := process_lines JSON_parse c (complete_lines (buffer ++ value)) in
    (fragment (buffer ++ value), c', out, sig).
Proof.
  unfold read_chunk. rewrite pop_split_lf, or_str_empty. reflexivity.
Qed.

(** The loop started on a buffer without a line feed does to the chunks
    what the line loop does to the complete lines of the whole text. *)
Lemma read_loop_lines (chunks : list string) :
  forall (buffer : string) (c : Counters),
    cut buffer = ([], buffer) ->
    exists b,
      read_loop JSON_parse buffer c chunks
      = (let '(c', out, sig) :=
           process_lines JSON_parse c (complete_lines (buffer ++ join chunks)) in
         (b, c', out, sig))
      /\ (snd (read_loop JSON_parse buffer c chunks) = Next ->
          b = fragment (buffer ++ join chunks)).
Proof.
  induction chunks as [|v later IH]; intros buffer c Hb.
  - exists buffer. cbn [join Stream.read_loop]. rewrite append_nil_r.
    unfold complete_lines, fragment. rewrite Hb. split; reflexivity.
  - cbn [join Stream.read_loop]. rewrite read_chunk_cut.
    rewrite <- append_assoc.
    rewrite (complete_lines_app (buffer ++ v) (join later)).
    rewrite (process_lines_app (complete_lines (buffer ++ v))).
    rewrite (fragment_app (buffer ++ v) (join later)).
    destruct (process_lines JSON_parse c (complete_lines (buffer ++ v)))
      as [[c1 o1] [|]].
    + destruct (IH (fragment (buffer ++ v)) c1 (cut_fragment _)) as [b [Hrun Hnext]].
      exists b. rewrite Hrun in Hnext |- *.
      destruct (process_lines JSON_parse c1 _) as [[c2 o2] sig].
      split; [reflexivity|]. exact Hnext.
    + exists (fragment (buffer ++ v)). split; [reflexivity|]. discriminate.
Qed.

Lemma streamGenerator_lines (chunks : list string) :
  streamGenerator JSON_parse chunks
  = snd (fst (process_lines JSON_parse initial (complete_lines (join chunks)))).
Proof.
  unfold streamGenerator.
  destruct (read_loop_lines chunks EmptyString initial eq_refl) as [b [Hrun _]].
  rewrite Hrun. cbn [append].
  now destruct (process_lines JSON_parse initial (complete_lines (join chunks))) as [[c o] sig].
Qed.

Lemma join_chars (s : string) : join (chars s) = s.
Proof. induction s as [|c r IH]; cbn; [reflexivity | now rewrite IH]. Qed.

(** C4.  The responses the stream parser yields depend on the text only,
    not on how it is cut into chunks: they are what the line loop yields
    on the lines of the whole text that end in a line feed, in order; the
    text after the last line feed stays in the buffer; lines and buffer
    together are the text, nothing lost and nothing doubled.  So any two
    chunkings of one text, such as one character at a time and all at
    once, give the same sequence of responses. *)
Theorem stream_chunking_invariant :
  (forall chunks,
      streamGenerator JSON_parse chunks
      = snd (fst (process_lines JSON_parse initial (complete_lines (join chunks)))))
  /\ (forall chunks b c out,
         read_loop JSON_parse EmptyString initial chunks = (b, c, out, Next) ->
         b = fragment (join chunks))
  /\ (forall s, unlines (complete_lines s) (fragment s) = s
                /\ Forall (fun l => cut l = ([], l)) (complete_lines s))
  /\ (forall chunks1 chunks2,
         join chunks1 = join chunks2 ->
         streamGenerator JSON_parse chunks1 = streamGenerator JSON_parse chunks2)
  /\ (forall s, streamGenerator JSON_parse (chars s) = streamGenerator JSON_parse [s]).
Proof.
  split; [|split; [|split; [|split]]].
  - exact streamGenerator_lines.
  - intros chunks b c out Hrun.
    destruct (read_loop_lines chunks EmptyString initial eq_refl) as [b' [Hrun' Hnext]].
    rewrite Hrun in Hnext. specialize (Hnext eq_refl). cbn [append] in *.
    rewrite Hrun in Hrun'.
    destruct (process_lines JSON_parse initial (complete_lines (join chunks))) as [[c' o'] sig].
    congruence.
  - intros s. split; [apply unlines_cut | apply complete_lines_no_lf].
  - intros chunks1 chunks2 H. rewrite !streamGenerator_lines. now rewrite H.
  - intros s. rewrite !streamGenerator_lines. rewrite join_chars. cbn [join].
    now rewrite append_nil_r.
Qed.

End ParserFacts.

Lemma stream_chunking_invariant_witness :
  streamGenerator sample_parse (chars sample_text)
  = streamGenerator sample_parse [sample_text]
  /\ fst (fst (fst (read_loop sample_parse EmptyString initial (chars sample_text))))
     = "data: D".
Proof.
  destruct (stream_chunking_invariant sample_parse) as [_ [Hbuf [_ [Heq _]]]].
  split.
  - apply (Heq (chars sample_text) [sample_text]). reflexivity.
  - rewrite (Hbuf (chars sample_text)
               "data: D"
               {| totalInputTokens := 5; totalOutputTokens := 0 |}
               [createStreamResponse "hi" 5 0]).
    + reflexivity.
    + reflexivity.
Defined.

Section EventFacts.

Variable JSON_parse : string -> option ParsedEvent.

Lemma type_is_eq (parsed : ParsedEvent) (name : string) :
  ev_type parsed = Some name -> type_is parsed name = true.
Proof. intros H. unfold type_is. rewrite H. apply String.eqb_refl. Qed.

Lemma type_is_neq (parsed : ParsedEvent) (name : string) :
  ev_type parsed <> Some name -> type_is parsed name = false.
Proof.
  intros H. unfold type_is. destruct (ev_type parsed) as [t|]; [|reflexivity].
  apply String.eqb_neq. congruence.
Qed.

(** A data line is not blank, so it reaches the parser. *)
Lemma process_data_line (c : Counters) (data : string) (parsed : ParsedEvent) :
  JSON_parse data = Some parsed ->
  data <> "[DONE]" ->
  process_line JSON_parse c ("data: " ++ data) = dispatch c parsed.
Proof.
  intros Hp Hd. unfold process_line.
  replace (String.eqb (trim ("data: " ++ data)) EmptyString) with false.
  - unfold startsWith. rewrite prefix_append. cbn [append slice].
    apply String.eqb_neq in Hd. now rewrite Hd, Hp.
  - symmetry. apply String.eqb_neq. cbn [append].
    apply trim_nonblank. reflexivity.
Qed.

(** C5.  On a data line whose payload parses to an event: a
    content_block_delta with a non-empty delta text yields exactly one
    partial response with that text, the running counters as they stand
    and no finish reason; a content_block_delta without text or with the
    empty text, a message_start, a message_delta and an event of any other
    type but message_stop yield nothing; message_start sets the input
    counter only, message_delta the output counter only. *)
Theorem stream_event_dispatch (c : Counters) (data : string) (parsed : ParsedEvent) :
  JSON_parse data = Some parsed ->
  data <> "[DONE]" ->
  let line := "data: " ++ data in
  (forall t,
      ev_type parsed = Some "content_block_delta" ->
      delta_text parsed = Some t -> t <> EmptyString ->
      exists r,
        process_line JSON_parse c line = (c, [r], Next)
        /\ text r = t
        /\ map cand_parts (candidates r) = [[t]]
        /\ counts_of r = (totalInputTokens c, totalOutputTokens c)
        /\ map finishReason (candidates r) = [None])
  /\ (ev_type parsed = Some "content_block_delta" ->
      delta_text parsed = None \/ delta_text parsed = Some EmptyString ->
      process_line JSON_parse c line = (c, [], Next))
  /\ (ev_type parsed = Some "message_start" ->
      process_line JSON_parse c line
      = ({| totalInputTokens :=
              match message_usage_input_tokens parsed with
              | Some n => n
              | None => 0%Z
              end;
            totalOutputTokens := totalOutputTokens c |}, [], Next))
  /\ (ev_type parsed = Some "message_delta" ->
      process_line JSON_parse c line
      = ({| totalInputTokens := totalInputTokens c;
            totalOutputTokens :=
              match usage_output_tokens parsed with
              | Some n => n
              | None => 0%Z
              end |}, [], Next))
  /\ (ev_type parsed <> Some "message_start" ->
      ev_type parsed <> Some "content_block_delta" ->
      ev_type parsed <> Some "message_delta" ->
      ev_type parsed <> Some "message_stop" ->
      process_line JSON_parse c line = (c, [], Next)).
Proof.
  intros Hp Hd line. subst line. rewrite (process_data_line c data parsed Hp Hd).
  unfold dispatch. repeat split.
  - intros t Ht Hdt Hne.
    rewrite (type_is_neq parsed "message_start") by (rewrite Ht; discriminate).
    rewrite (type_is_eq parsed _ Ht), Hdt.
    destruct t as [|a t]; [congruence|]. cbn [or_str truthy].
    eexists. split; [reflexivity|]. repeat split.
  - intros Ht Hdt.
    rewrite (type_is_neq parsed "message_start") by (rewrite Ht; discriminate).
    rewrite (type_is_eq parsed _ Ht).
    now destruct Hdt as [-> | ->].
  - intros Ht. rewrite (type_is_eq parsed _ Ht).
    destruct (message_usage_input_tokens parsed) as [n|]; [|reflexivity].
    cbn [or_zero]. destruct (Z.eqb_spec n 0); [subst|]; reflexivity.
  - intros Ht.
    rewrite (type_is_neq parsed "message_start") by (rewrite Ht; discriminate).
    rewrite (type_is_neq parsed "content_block_delta") by (rewrite Ht; discriminate).
    rewrite (type_is_eq parsed _ Ht).
    destruct (usage_output_tokens parsed) as [n|]; [|reflexivity].
    cbn [or_zero]. destruct (Z.eqb_spec n 0); [subst|]; reflexivity.
  - intros H1 H2 H3 H4.
    now rewrite !type_is_neq by assumption.
Qed.

End EventFacts.

Lemma stream_event_dispatch_witness :
  (exists r,
      process_line sample_parse {| totalInputTokens := 5; totalOutputTokens := 2 |} "data: D"
      = ({| totalInputTokens := 5; totalOutputTokens := 2 |}, [r], Next)
      /\ text r = "hi"
      /\ counts_of r = (5%Z, 2%Z)
      /\ map finishReason (candidates r) = [None])
  /\ process_line sample_parse initial "data: S"
     = ({| totalInputTokens := 5; totalOutputTokens := 0 |}, [], Next).
Proof.
  split.
  - destruct (stream_event_dispatch sample_parse
                {| totalInputTokens := 5; totalOutputTokens := 2 |} "D"
                {| ev_type := Some "content_block_delta";
                   message_usage_input_tokens := None;
                   delta_text := Some "hi";
                   usage_output_tokens := None |}
                eq_refl ltac:(discriminate)) as [Hdelta _].
    destruct (Hdelta "hi" eq_refl eq_refl ltac:(discriminate))
      as [r [Hr [Ht [_ [Hc Hf]]]]].
    exists r. repeat split; assumption.
  - destruct (stream_event_dispatch sample_parse initial "S"
                {| ev_type := Some "message_start";
                   message_usage_input_tokens := Some 5%Z;
                   delta_text := None;
                   usage_output_tokens := None |}
                eq_refl ltac:(discriminate)) as [_ [_ [Hstart _]]].
    exact (Hstart eq_refl).
Defined.

(* ================================================================== *)
(** ** Token storage and refresh *)
(* ================================================================== *)

Ltac run_m :=
  unfold getAnthropicAccessToken, hasValidAnthropicTokens, getStoredTokens,
    storeTokens, post_token, bindM, catchM, finallyM, ret, throw, liftO,
    modify, Core.get in *; cbv beta in *.

Section RefreshFacts.

Variable token_endpoint : TokenRequest -> Fetch TokenResponse.

(** The token lookup never throws, and it touches nothing but the auth
    file and the list of token calls. *)
Lemma getAnthropicAccessToken_frame (w : World) :
  exists r w',
    getAnthropicAccessToken token_endpoint w = (Ok r, w')
    /\ flow w' = flow w /\ opened w' = opened w
    /\ env_ANTHROPIC_API_KEY w' = env_ANTHROPIC_API_KEY w.
Proof.
  run_m. destruct (authFile w) as [t|]; [|now eexists; eexists].
  destruct (negb (is_oauth t)); [now eexists; eexists|].
  destruct (truthy (access t) && (now w <? expires t)%Z); [now eexists; eexists|].
  destruct (token_endpoint _) as [e|r]; [now eexists; eexists|].
  destruct (negb (ok r)); [now eexists; eexists|].
  destruct (body_json r) as [nt|e]; [|now eexists; eexists].
  cbn [log_token_call disk_ok].
  destruct (disk_ok w); now eexists; eexists.
Qed.

Lemma hasValidAnthropicTokens_frame (w : World) :
  exists b w',
    hasValidAnthropicTokens token_endpoint w = (Ok b, w')
    /\ flow w' = flow w /\ opened w' = opened w.
Proof.
  destruct (getAnthropicAccessToken_frame w) as [r [w' [H [Hf [Ho _]]]]].
  unfold hasValidAnthropicTokens, bindM, ret. rewrite H.
  now eexists; eexists.
Qed.

(** C10.  A stored record whose type tag is not oauth gives null at once:
    the world is as before, so no refresh was posted, and the answer is
    the one given when no record is stored. *)
Theorem non_oauth_record_gives_null (w : World) (t : OAuthTokens) :
  authFile w = Some t ->
  type t <> "oauth" ->
  getAnthropicAccessToken token_endpoint w = (Ok None, w)
  /\ token_calls (snd (getAnthropicAccessToken token_endpoint w)) = token_calls w
  /\ fst (getAnthropicAccessToken token_endpoint w)
     = fst (getAnthropicAccessToken token_endpoint (set_authFile w None)).
Proof.
  intros Hf Ht. apply String.eqb_neq in Ht.
  assert (H : getAnthropicAccessToken token_endpoint w = (Ok None, w)).
  { run_m. rewrite Hf. unfold is_oauth. now rewrite Ht. }
  rewrite H. repeat split.
Qed.

(** C8 (as amended).  The stored access token is returned when the
    stored OAuth record has a non-empty access token and expires after
    now; when the record is expired, or its access token is empty, one
    refresh grant is posted; the result is null, never a throw, when no
    record is stored, when the refresh answer is not ok, and when the
    post, the reading of its body or the storing of the new tokens
    throws. *)
Theorem getAnthropicAccessToken_spec (w : World) :
  (exists r, fst (getAnthropicAccessToken token_endpoint w) = Ok r)
  /\ (authFile w = None ->
      getAnthropicAccessToken token_endpoint w = (Ok None, w))
  /\ (forall t,
         authFile w = Some t -> type t = "oauth" ->
         (access t <> EmptyString -> (now w < expires t)%Z ->
          getAnthropicAccessToken token_endpoint w = (Ok (Some (access t)), w))
         /\ (access t = EmptyString \/ (expires t <= now w)%Z ->
             let grant := RefreshGrant (refresh t) CLIENT_ID in
             let result := getAnthropicAccessToken token_endpoint w in
             token_calls (snd result) = (token_calls w ++ [grant])%list
             /\ (forall e, token_endpoint grant = Rejected e -> fst result = Ok None)
             /\ (forall r, token_endpoint grant = Responded r ->
                   (ok r = false -> fst result = Ok None)
                   /\ (forall e, ok r = true -> body_json r = Throw e ->
                                 fst result = Ok None)
                   /\ (forall nt, ok r = true -> body_json r = Ok nt ->
                         (disk_ok w = false -> fst result = Ok None)
                         /\ (disk_ok w = true ->
                             fst result = Ok (Some (access_token nt))
                             /\ authFile (snd result)
                                = Some {| type := "oauth";
                                          access := access_token nt;
                                          refresh := refresh_token_ nt;
                                          expires := now w + expires_in nt * 1000 |}))))).
Proof.
  split; [|split].
  - destruct (getAnthropicAccessToken_frame w) as [r [w' [H _]]].
    exists r. now rewrite H.
  - intros Hf. run_m. now rewrite Hf.
  - intros t Hf Ht. apply String.eqb_eq in Ht. split.
    + intros Ha Hn. apply truthy_true_iff in Ha. apply Z.ltb_lt in Hn.
      run_m. rewrite Hf. unfold is_oauth. rewrite Ht. cbn [negb]. cbv beta.
      now rewrite Ha, Hn.
    + intros Hstale grant result.
      assert (Hguard : truthy (access t) && (now w <? expires t)%Z = false).
      { destruct Hstale as [-> | Hexp]; [reflexivity|].
        apply Z.ltb_ge in Hexp. rewrite Hexp. apply andb_false_r. }
      subst result. run_m. rewrite Hf. unfold is_oauth. rewrite Ht.
      cbn [negb]. cbv beta. rewrite Hguard. fold grant.
      destruct (token_endpoint grant) as [e|r] eqn:He.
      * split; [reflexivity|]. split; [reflexivity|]. discriminate.
      * split.
        { destruct (ok r); cbn [negb]; [|reflexivity].
          destruct (body_json r); cbn [log_token_call disk_ok];
            [destruct (disk_ok w)|]; reflexivity. }
        split; [discriminate|].
        intros r' Hr'. injection Hr' as <-.
        split; [intros ->; reflexivity|].
        split.
        { intros e -> ->. reflexivity. }
        intros nt -> ->. cbn [negb log_token_call disk_ok now].
        split; intros ->; [reflexivity|]. split; reflexivity.
Qed.

End RefreshFacts.

Lemma non_oauth_record_gives_null_witness :
  getAnthropicAccessToken granting (at_rest (Some api_record))
  = (Ok None, at_rest (Some api_record)).
Proof.
  apply (non_oauth_record_gives_null granting (at_rest (Some api_record)) api_record).
  - reflexivity.
  - discriminate.
Defined.

(** C8 (as first stated) fails: the record is of type oauth and expires
    after now, yet its empty access token is not returned; a refresh grant
    is posted and, the endpoint being out of reach, the result is null. *)
Lemma empty_access_token_is_refreshed :
  authFile (at_rest (Some empty_access_tokens)) = Some empty_access_tokens
  /\ type empty_access_tokens = "oauth"
  /\ (now (at_rest (Some empty_access_tokens)) < expires empty_access_tokens)%Z
  /\ fst (getAnthropicAccessToken offline (at_rest (Some empty_access_tokens)))
     <> Ok (Some (access empty_access_tokens))
  /\ fst (getAnthropicAccessToken offline (at_rest (Some empty_access_tokens))) = Ok None
  /\ token_calls (snd (getAnthropicAccessToken offline (at_rest (Some empty_access_tokens))))
     = [RefreshGrant "ref" CLIENT_ID].
Proof.
  repeat split; discriminate.
Qed.

Lemma getAnthropicAccessToken_spec_witness :
  getAnthropicAccessToken offline (at_rest (Some valid_tokens))
  = (Ok (Some "tok"), at_rest (Some valid_tokens))
  /\ fst (getAnthropicAccessToken offline (at_rest (Some empty_access_tokens))) = Ok None
  /\ getAnthropicAccessToken offline (at_rest None) = (Ok None, at_rest None).
Proof.
  split; [|split].
  - destruct (getAnthropicAccessToken_spec offline (at_rest (Some valid_tokens)))
      as [_ [_ H]].
    destruct (H valid_tokens eq_refl eq_refl) as [Hvalid _].
    apply Hvalid; [discriminate | reflexivity].
  - destruct (getAnthropicAccessToken_spec offline (at_rest (Some empty_access_tokens)))
      as [_ [_ H]].
    destruct (H empty_access_tokens eq_refl eq_refl) as [_ Hstale].
    destruct (Hstale (or_introl eq_refl)) as [_ [Hrej _]].
    apply (Hrej "fetch failed"). reflexivity.
  - destruct (getAnthropicAccessToken_spec offline (at_rest None)) as [_ [Hnone _]].
    apply Hnone. reflexivity.
Defined.

(* ================================================================== *)
(** ** Content generator facade *)
(* ================================================================== *)

Section FacadeFacts.

Variable token_endpoint : TokenRequest -> Fetch TokenResponse.
Variable chat_endpoint : ChatCall -> Fetch AnthropicResponse.
Variable JSON_parse : string -> option ParsedEvent.
Variable cfg : AnthropicConfig.

Lemma prepare_unfold (stream : bool) (request : GenerateContentRequest)
    (w w' : World) (tok : option string) :
  getAnthropicAccessToken token_endpoint w = (Ok tok, w') ->
  prepare token_endpoint cfg stream request w
  = if negb (truthy_opt (or_opt (apiKey cfg) (env_ANTHROPIC_API_KEY w)))
       && negb (truthy_opt tok)
    then (Throw NO_AUTH, w')
    else (Ok {| call_url := the_baseUrl cfg ++ "/v1/messages";
                call_headers :=
                  auth_headers (or_opt (apiKey cfg) (env_ANTHROPIC_API_KEY w)) tok;
                call_body := convertToAnthropicFormat cfg request;
                call_stream := stream |}, w').
Proof.
  intros H. unfold prepare, bindM, Core.get, ret, throw. rewrite H.
  now destruct (negb _ && negb _).
Qed.

(** C3 (as amended).  The OAuth access token comes first: when the token
    lookup gives a non-empty token the call carries the bearer header and
    the beta marker and no x-api-key.  Without a token the explicit
    configuration key is sent as x-api-key, and without that the key of
    the environment.  With none of the three the call fails with the
    no-authentication error, in generateContent and in the stream alike. *)
Theorem credential_resolution (stream : bool) (request : GenerateContentRequest)
    (w w' : World) (tok : option string) :
  getAnthropicAccessToken token_endpoint w = (Ok tok, w') ->
  (forall t, tok = Some t -> t <> EmptyString ->
      exists call,
        prepare token_endpoint cfg stream request w = (Ok call, w')
        /\ header (call_headers call) "Authorization" = Some ("Bearer " ++ t)
        /\ header (call_headers call) "anthropic-beta" = Some "oauth-2025-04-20"
        /\ header (call_headers call) "x-api-key" = None)
  /\ (truthy_opt tok = false ->
      (forall k, apiKey cfg = Some k -> k <> EmptyString ->
          exists call,
            prepare token_endpoint cfg stream request w = (Ok call, w')
            /\ header (call_headers call) "x-api-key" = Some k
            /\ header (call_headers call) "Authorization" = None)
      /\ (truthy_opt (apiKey cfg) = false ->
          (forall k, env_ANTHROPIC_API_KEY w = Some k -> k <> EmptyString ->
              exists call,
                prepare token_endpoint cfg stream request w = (Ok call, w')
                /\ header (call_headers call) "x-api-key" = Some k
                /\ header (call_headers call) "Authorization" = None)
          /\ (truthy_opt (env_ANTHROPIC_API_KEY w) = false ->
              prepare token_endpoint cfg stream request w = (Throw NO_AUTH, w')
              /\ fst (generateContent token_endpoint chat_endpoint cfg request w)
                 = Throw ("Failed to generate content with Anthropic: "
                          ++ show_error NO_AUTH)
              /\ fst (generateContentStream token_endpoint chat_endpoint JSON_parse
                        cfg request w)
                 = Throw ("Failed to generate streaming content with Anthropic: "
                          ++ show_error NO_AUTH)))).
Proof.
  intros H. split; [|intros Htok; split; [|intros Hcfg; split]].
  - intros t -> Ht. apply truthy_true_iff in Ht.
    rewrite (prepare_unfold stream request w w' _ H).
    cbn [truthy_opt]. rewrite Ht. cbn [negb]. rewrite andb_false_r.
    eexists. split; [reflexivity|]. cbn [call_headers].
    unfold auth_headers. cbn [truthy_opt]. rewrite Ht.
    destruct t; [discriminate|]. repeat split.
  - intros k Hk Hne. apply truthy_true_iff in Hne.
    rewrite (prepare_unfold stream request w w' _ H).
    unfold or_opt. rewrite Hk. cbn [truthy_opt]. rewrite Hne. cbn [truthy_opt].
    rewrite Hne. cbn [negb andb].
    eexists. split; [reflexivity|]. cbn [call_headers].
    unfold auth_headers. rewrite Htok. cbn [truthy_opt]. rewrite Hne.
    destruct k; [discriminate|]. repeat split.
  - intros k Hk Hne. apply truthy_true_iff in Hne.
    rewrite (prepare_unfold stream request w w' _ H).
    unfold or_opt. rewrite Hcfg, Hk. cbn [truthy_opt]. rewrite Hne.
    cbn [negb andb].
    eexists. split; [reflexivity|]. cbn [call_headers].
    unfold auth_headers. rewrite Htok. cbn [truthy_opt]. rewrite Hne.
    destruct k; [discriminate|]. repeat split.
  - intros Henv.
    assert (Hp : forall s, prepare token_endpoint cfg s request w = (Throw NO_AUTH, w')).
    { intros s. rewrite (prepare_unfold s request w w' _ H).
      unfold or_opt. now rewrite Hcfg, Henv, Htok. }
    split; [apply Hp|]. split.
    + unfold generateContent, catchM, bindM, throw. now rewrite Hp.
    + unfold generateContentStream, catchM, bindM, throw. now rewrite Hp.
Qed.

End FacadeFacts.

(** C3 (as first stated) fails: with the explicit key test-api-key in the
    configuration and an unexpired OAuth token in the store, the call goes
    out with the bearer header and without x-api-key. *)
Lemma oauth_token_goes_before_api_key :
  apiKey test_config = Some "test-api-key"
  /\ headers_of (fst (prepare offline test_config false hello_request
                        (at_rest (Some valid_tokens))))
     = [("Content-Type", "application/json");
        ("anthropic-version", "2023-06-01");
        ("Authorization", "Bearer tok");
        ("anthropic-beta", "oauth-2025-04-20")]
  /\ header (headers_of (fst (prepare offline test_config false hello_request
                                (at_rest (Some valid_tokens)))))
       "x-api-key" <> Some "test-api-key".
Proof.
  repeat split; discriminate.
Qed.

Lemma credential_resolution_witness :
  (exists call,
      prepare offline test_config false hello_request (at_rest (Some valid_tokens))
      = (Ok call, at_rest (Some valid_tokens))
      /\ header (call_headers call) "Authorization" = Some "Bearer tok"
      /\ header (call_headers call) "x-api-key" = None)
  /\ (exists call,
         prepare offline test_config false hello_request (at_rest None)
         = (Ok call, at_rest None)
         /\ header (call_headers call) "x-api-key" = Some "test-api-key"
         /\ header (call_headers call) "Authorization" = None).
Proof.
  split.
  - destruct (credential_resolution offline
                (fun _ => Rejected "fetch failed") sample_parse test_config
                false hello_request
                (at_rest (Some valid_tokens)) (at_rest (Some valid_tokens))
                (Some "tok") eq_refl) as [Hoauth _].
    destruct (Hoauth "tok" eq_refl ltac:(discriminate)) as [call [Hc [Ha [_ Hk]]]].
    exists call. repeat split; assumption.
  - destruct (credential_resolution offline
                (fun _ => Rejected "fetch failed") sample_parse test_config
                false hello_request
                (at_rest None) (at_rest None) None eq_refl) as [_ Hkey].
    destruct (Hkey eq_refl) as [Hcfg _].
    exact (Hcfg "test-api-key" eq_refl ltac:(discriminate)).
Defined.

(* ================================================================== *)
(** ** OAuth session manager *)
(* ================================================================== *)

Section FlowFacts.

Variable token_endpoint : TokenRequest -> Fetch TokenResponse.
Variable URL_searchParams : string -> option (string -> option string).

(** The start of a flow, branch by branch, once the outcome of the
    credential check is known. *)
Lemma start_unfold (pkce : PKCE) (w w' : World) (valid : bool) :
  hasValidAnthropicTokens token_endpoint (set_lock true w) = (Ok valid, w') ->
  startAnthropicOAuthFlow token_endpoint pkce w
  = match (if oauthLock (flow w) then oauthSession (flow w) else None) with
    | Some s => (Ok {| res_url := url s; message := InProgressAfterLock |}, w)
    | None =>
        if valid
        then (Ok {| res_url := EmptyString; message := AlreadyAuthenticated |},
              set_lock false w')
        else
          match (if isOAuthInProgress (flow w') || isCompletingOAuth (flow w')
                 then oauthSession (flow w') else None) with
          | Some s => (Ok {| res_url := url s; message := InProgress |},
                       set_lock false w')
          | None =>
              let s := generateAuthorizationUrl pkce in
              (Ok {| res_url := url s; message := Started |},
               set_lock false
                 (log_opened (set_session (Some s) (set_inProgress true w')) (url s)))
          end
    end.
Proof.
  intros H. unfold startAnthropicOAuthFlow, bindM, Core.get, ret.
  destruct (if oauthLock (flow w) then oauthSession (flow w) else None);
    [reflexivity|].
  unfold modify, finallyM, bindM, Core.get, ret, openUrl, modify. rewrite H.
  destruct valid; [reflexivity|].
  destruct (if isOAuthInProgress (flow w') || isCompletingOAuth (flow w')
            then oauthSession (flow w') else None); reflexivity.
Qed.

(** With no record in the store the credential check fails, so the
    already-authenticated exit is not taken and the store stays empty. *)
Lemma no_record_not_authenticated (pkce : PKCE) (w w' : World) (r : FlowResult) :
  authFile w = None ->
  startAnthropicOAuthFlow token_endpoint pkce w = (Ok r, w') ->
  message r <> AlreadyAuthenticated /\ authFile w' = None.
Proof.
  intros Hf Hrun.
  assert (Hv : hasValidAnthropicTokens token_endpoint (set_lock true w)
               = (Ok false, set_lock true w)).
  { run_m. destruct w. cbn in Hf |- *. now rewrite Hf. }
  rewrite (start_unfold pkce w _ false Hv) in Hrun.
  destruct w as [file disk clock env calls [session inProgress completing lock] op].
  cbn in Hf. subst file. cbn in Hrun.
  destruct (if lock then session else None);
    [injection Hrun as <- <-; split; [discriminate | reflexivity]|].
  destruct (if inProgress || completing then session else None);
    injection Hrun as <- <-; split; (discriminate || reflexivity).
Qed.

(** Two calls in a row, branch by branch. *)
Lemma start_twice_cases (pkce_a pkce_b : PKCE) (w : World) :
  exists r1 w1 r2 w2,
    startAnthropicOAuthFlow token_endpoint pkce_a w = (Ok r1, w1)
    /\ startAnthropicOAuthFlow token_endpoint pkce_b w1 = (Ok r2, w2)
    /\ (message r1 <> AlreadyAuthenticated ->
        message r2 <> AlreadyAuthenticated ->
        res_url r1 = res_url r2
        /\ oauthSession (flow w2) = oauthSession (flow w1)
        /\ (exists s, oauthSession (flow w1) = Some s /\ url s = res_url r1)
        /\ opened w2 = opened w1).
Proof.
  destruct (hasValidAnthropicTokens_frame token_endpoint (set_lock true w))
    as [b1 [w1' [H1 [Hf1 Ho1]]]].
  rewrite (start_unfold pkce_a w w1' b1 H1).
  destruct w as [file disk clock env calls [session inProgress completing lock] op].
  destruct w1' as [file' disk' clock' env' calls' flow' op'].
  cbn [flow set_lock set_flow oauthSession isOAuthInProgress isCompletingOAuth
         oauthLock opened] in *.
  subst flow' op'.
  cbn [flow set_lock set_flow oauthSession isOAuthInProgress isCompletingOAuth
         oauthLock opened].
  match goal with
  | |- exists r1 w1 r2 w2, ?first = _ /\ _ => set (w1 := snd first)
  end.
  destruct (hasValidAnthropicTokens_frame token_endpoint (set_lock true w1))
    as [b2 [w2' [H2 [Hf2 Ho2]]]].
  pose proof (start_unfold pkce_b w1 w2' b2 H2) as Hsecond.
  destruct (if lock then session else None) as [s|] eqn:Hearly.
  - (* the lock is held and a session is stored: both calls return it *)
    destruct lock; [|discriminate]. subst session.
    cbn in w1. subst w1. cbn in Hsecond.
    do 4 eexists. split; [reflexivity|]. split; [exact Hsecond|].
    intros _ _. cbn. repeat split. now exists s.
  - destruct b1.
    + (* already authenticated: outside the claim *)
      assert (Hex : exists r2 w2,
                 startAnthropicOAuthFlow token_endpoint pkce_b w1 = (Ok r2, w2)).
      { rewrite Hsecond.
        destruct (if oauthLock (flow w1) then oauthSession (flow w1) else None);
          [now eexists; eexists|].
        destruct b2; [now eexists; eexists|].
        destruct (if isOAuthInProgress (flow w2') || isCompletingOAuth (flow w2')
                  then oauthSession (flow w2') else None);
          now eexists; eexists. }
      destruct Hex as [r2 [w2 Hex]].
      do 2 eexists. exists r2, w2.
      split; [reflexivity|]. split; [exact Hex|].
      intros Hm. now elim Hm.
    + cbn [oauthSession isOAuthInProgress isCompletingOAuth oauthLock] in *.
      destruct (if inProgress || completing then session else None)
        as [s|] eqn:Hrunning.
      * (* a flow is under way: its session is returned, now and again *)
        assert (Hs : session = Some s)
          by (destruct (inProgress || completing); congruence).
        assert (Hflags : inProgress || completing = true)
          by (destruct (inProgress || completing); congruence).
        subst session. cbn in w1. subst w1.
        cbn [set_lock set_flow flow oauthSession isOAuthInProgress
               isCompletingOAuth oauthLock opened] in *.
        rewrite Hf2 in Hsecond.
        cbn [oauthSession isOAuthInProgress isCompletingOAuth] in Hsecond.
        rewrite Hflags in Hsecond.
        destruct b2.
        { do 4 eexists. split; [reflexivity|]. split; [exact Hsecond|].
          intros _ Hm. now elim Hm. }
        do 4 eexists. split; [reflexivity|]. split; [exact Hsecond|].
        intros _ _. cbn [res_url message flow set_lock set_flow oauthSession opened].
        rewrite Hf2. cbn [oauthSession]. repeat split; [now exists s | exact Ho2].
      * (* a fresh session is stored; the second call finds it *)
        cbn in w1. subst w1.
        cbn [set_lock set_flow flow oauthSession isOAuthInProgress
               isCompletingOAuth oauthLock opened log_opened set_session
               set_inProgress] in *.
        rewrite Hf2 in Hsecond.
        cbn [oauthSession isOAuthInProgress isCompletingOAuth orb] in Hsecond.
        destruct b2.
        { do 4 eexists. split; [reflexivity|]. split; [exact Hsecond|].
          intros _ Hm. now elim Hm. }
        do 4 eexists. split; [reflexivity|]. split; [exact Hsecond|].
        intros _ _. cbn [res_url message flow set_lock set_flow oauthSession opened].
        rewrite Hf2. cbn [oauthSession].
        repeat split; [now eexists | exact Ho2].
Qed.

(** C7.  Two calls of startAnthropicOAuthFlow in a row, neither of which
    finds a valid credential (as is the case when the store is empty): both
    return the same authorization URL, the URL of the one stored session;
    the second call leaves the session as it is, whatever PKCE pair it
    would have drawn, and opens no browser again. *)
Theorem start_twice_same_url (pkce_a pkce_b : PKCE) (w : World) :
  exists r1 w1 r2 w2,
    startAnthropicOAuthFlow token_endpoint pkce_a w = (Ok r1, w1)
    /\ startAnthropicOAuthFlow token_endpoint pkce_b w1 = (Ok r2, w2)
    /\ (message r1 <> AlreadyAuthenticated ->
        message r2 <> AlreadyAuthenticated ->
        res_url r1 = res_url r2
        /\ oauthSession (flow w2) = oauthSession (flow w1)
        /\ (exists s, oauthSession (flow w1) = Some s /\ url s = res_url r1)
        /\ opened w2 = opened w1)
    /\ (authFile w = None ->
        message r1 <> AlreadyAuthenticated /\ message r2 <> AlreadyAuthenticated).
Proof.
  destruct (start_twice_cases pkce_a pkce_b w) as [r1 [w1 [r2 [w2 [H1 [H2 H]]]]]].
  exists r1, w1, r2, w2.
  split; [exact H1|]. split; [exact H2|]. split; [exact H|].
  intros Hf.
  destruct (no_record_not_authenticated pkce_a w w1 r1 Hf H1) as [Hm1 Hf1].
  split; [exact Hm1|].
  exact (proj1 (no_record_not_authenticated pkce_b w1 w2 r2 Hf1 H2)).
Qed.

End FlowFacts.

Lemma start_twice_same_url_witness :
  exists r1 w1 r2 w2,
    startAnthropicOAuthFlow offline pkce1 (at_rest None) = (Ok r1, w1)
    /\ startAnthropicOAuthFlow offline pkce2 w1 = (Ok r2, w2)
    /\ res_url r1 = res_url r2
    /\ oauthSession (flow w2) = oauthSession (flow w1).
Proof.
  destruct (start_twice_same_url offline pkce1 pkce2 (at_rest None))
    as [r1 [w1 [r2 [w2 [H1 [H2 [H Hnone]]]]]]].
  exists r1, w1, r2, w2. split; [exact H1|]. split; [exact H2|].
  destruct (Hnone eq_refl) as [Hm1 Hm2].
  destruct (H Hm1 Hm2) as [Hu [Hs _]]. split; assumption.
Defined.

Section CompletionFacts.

Variable token_endpoint : TokenRequest -> Fetch TokenResponse.
Variable URL_searchParams : string -> option (string -> option string).

Lemma clear_all_set_completing (b : bool) (w : World) :
  clear_all (set_completing b w) = clear_all w.
Proof. now destruct w. Qed.

(** A code that is empty or under ten characters stops the exchange
    before anything is posted. *)
Lemma exchange_rejects_short_code (code verifier authCode st : string) (w : World) :
  parse_input URL_searchParams (clean code) = Ok (authCode, st) ->
  (String.length authCode < 10)%nat ->
  exists msg,
    exchangeCodeForTokens token_endpoint URL_searchParams code verifier w
    = (Throw msg, w)
    /\ InvalidCode msg.
Proof.
  intros Hp Hlen. unfold exchangeCodeForTokens, bindM, liftO, throw.
  rewrite Hp. cbn [fst snd].
  destruct (truthy authCode) eqn:Ht; cbn [negb].
  - apply Nat.ltb_lt in Hlen. rewrite Hlen.
    exists (too_short authCode). split; [reflexivity|]. right. now exists authCode.
  - exists NO_CODE. split; [reflexivity|]. now left.
Qed.

(** C2 (as amended).  With an active session and no completion under way,
    an input whose code is empty or shorter than ten characters makes
    completeAnthropicOAuthWithCode fail with the invalid-code error
    before anything is posted; the session and all flags are cleared, so
    that a further completion fails with the no-session error until a
    flow is started again. *)
Theorem invalid_code_clears_session (w : World) (s : Session)
    (code authCode st : string) :
  oauthSession (flow w) = Some s ->
  isCompletingOAuth (flow w) = false ->
  parse_input URL_searchParams (clean code) = Ok (authCode, st) ->
  (String.length authCode < 10)%nat ->
  exists msg,
    completeAnthropicOAuthWithCode token_endpoint URL_searchParams code w
    = (Throw msg, clear_all w)
    /\ InvalidCode msg
    /\ flow (clear_all w) = idle
    /\ token_calls (clear_all w) = token_calls w
    /\ authFile (clear_all w) = authFile w
    /\ (forall code',
           completeAnthropicOAuthWithCode token_endpoint URL_searchParams code'
             (clear_all w)
           = (Throw NO_SESSION, clear_all w)).
Proof.
  intros Hs Hc Hp Hlen.
  destruct (exchange_rejects_short_code code (verifier s) authCode st
              (set_completing true w) Hp Hlen) as [msg [Hx Hmsg]].
  exists msg. split; [|split; [exact Hmsg|]].
  - unfold completeAnthropicOAuthWithCode, bindM, Core.get, ret.
    rewrite Hs, Hc. unfold modify, catchM, bindM, throw. rewrite Hx.
    now rewrite clear_all_set_completing.
  - destruct w; repeat split.
Qed.

End CompletionFacts.

(** C2 (as first stated) fails: a flow awaits its code, the input abc is
    under ten characters, the call fails with the invalid-code error, and
    the session is gone: a retry with a code that the endpoint would have
    accepted fails with the no-session error. *)
Lemma invalid_code_drops_session :
  oauthSession (flow awaiting_code) = Some (generateAuthorizationUrl pkce1)
  /\ isCompletingOAuth (flow awaiting_code) = false
  /\ fst (completeAnthropicOAuthWithCode granting no_url "abc" awaiting_code)
     = Throw (too_short "abc")
  /\ oauthSession
       (flow (snd (completeAnthropicOAuthWithCode granting no_url "abc" awaiting_code)))
     <> oauthSession (flow awaiting_code)
  /\ fst (completeAnthropicOAuthWithCode granting no_url "authorization-code"
            awaiting_code) = Ok tt
  /\ fst (completeAnthropicOAuthWithCode granting no_url "authorization-code"
            (snd (completeAnthropicOAuthWithCode granting no_url "abc" awaiting_code)))
     = Throw NO_SESSION.
Proof.
  repeat split; discriminate.
Qed.

Lemma invalid_code_clears_session_witness :
  exists msg,
    completeAnthropicOAuthWithCode granting no_url "abc" awaiting_code
    = (Throw msg, clear_all awaiting_code)
    /\ InvalidCode msg.
Proof.
  destruct (invalid_code_clears_session granting no_url awaiting_code
              (generateAuthorizationUrl pkce1) "abc" "abc" EmptyString
              eq_refl eq_refl eq_refl ltac:(vm_compute; lia))
    as [msg [Hrun [Hmsg _]]].
  exists msg. split; assumption.
Defined.

(* ================================================================== *)
(** ** Further properties of the format translator *)
(* ================================================================== *)

Section MessageFacts.

Variable cfg : AnthropicConfig.

Lemma mapRole_cases (r : option string) :
  mapRole r = "user" \/ mapRole r = "assistant".
Proof.
  destruct r as [s|]; cbn; [|now left].
  destruct (String.eqb s "model"); [now right | now left].
Qed.

Lemma push_parts_roles (r : option string) (parts : list Part) :
  Forall (fun m => role m = mapRole r /\ content m <> EmptyString)
         (push_parts r parts).
Proof.
  induction parts as [|[t| |] parts IH]; cbn; try assumption; [constructor|].
  destruct (truthy t) eqn:Ht; [|assumption].
  constructor; [|assumption]. split; [reflexivity|]. now apply truthy_true_iff.
Qed.

Lemma push_parts_keep_text (r : option string) (parts : list Part) :
  push_parts r (filter part_has_text parts) = push_parts r parts.
Proof.
  induction parts as [|[t| |] parts IH]; cbn; try assumption; [reflexivity|].
  now rewrite IH.
Qed.

Lemma filter_part_has_text_idem (parts : list Part) :
  filter part_has_text (filter part_has_text parts) = filter part_has_text parts.
Proof.
  induction parts as [|[t| |] parts IH]; cbn; try assumption; [reflexivity|].
  now rewrite IH.
Qed.

Lemma push_item_keep_text (it : Item) : push_item (keep_text it) = push_item it.
Proof.
  destruct it as [[s|r parts|p]|parts]; cbn [keep_text push_item]; try reflexivity.
  - apply push_parts_keep_text.
  - now rewrite filter_part_has_text_idem.
Qed.

Lemma messages_of_array (xs : list Item) (c : option GenerationConfig) :
  messages (convertToAnthropicFormat cfg {| contents := ContentArray xs; config := c |})
  = flat_map push_item xs.
Proof. reflexivity. Qed.

(** X1.  Only the roles user and assistant are emitted, whatever the request
    and whatever the role strings of its turns. *)
Theorem only_user_and_assistant (request : GenerateContentRequest) :
  Forall (fun m => role m = "user" \/ role m = "assistant")
         (messages (convertToAnthropicFormat cfg request)).
Proof.
  unfold convertToAnthropicFormat. cbn [messages].
  destruct (contents_truthy (contents request)); [|constructor].
  induction (contentArray (contents request)) as [|it xs IH]; [constructor|].
  cbn [flat_map]. apply Forall_app. split; [|exact IH].
  destruct it as [[s|r parts|p]|parts]; cbn [push_item].
  - constructor; [now left | constructor].
  - eapply Forall_impl; [|apply push_parts_roles].
    cbn. intros m [-> _]. apply mapRole_cases.
  - constructor.
  - destruct (truthy _); constructor; [now left | constructor].
Qed.

(** X2.  Parts that bear no text leave no trace: the messages are those of the
    request with such parts taken out of every turn. *)
Theorem non_text_parts_are_dropped (xs : list Item) (c : option GenerationConfig) :
  messages (convertToAnthropicFormat cfg
              {| contents := ContentArray (map keep_text xs); config := c |})
  = messages (convertToAnthropicFormat cfg
                {| contents := ContentArray xs; config := c |}).
Proof.
  rewrite !messages_of_array.
  induction xs as [|it xs IH]; [reflexivity|].
  cbn [map flat_map]. now rewrite IH, push_item_keep_text.
Qed.

(** X3.  A message with empty content can come from a bare string of the
    content array only: turns and part arrays never give one. *)
Theorem empty_content_only_from_strings (xs : list Item)
    (c : option GenerationConfig) (m : Message) :
  In m (messages (convertToAnthropicFormat cfg
                    {| contents := ContentArray xs; config := c |})) ->
  content m = EmptyString ->
  role m = "user" /\ In (ISingle (SString EmptyString)) xs.
Proof.
  rewrite messages_of_array. intros Hin Hempty.
  apply in_flat_map in Hin. destruct Hin as [it [Hit Hm]].
  destruct it as [[s|r parts|p]|parts]; cbn [push_item] in Hm.
  - destruct Hm as [<-|[]]. cbn in Hempty. subst s. now split.
  - pose proof (push_parts_roles r parts) as Hall.
    rewrite Forall_forall in Hall. now destruct (Hall m Hm).
  - destruct Hm.
  - destruct (truthy _) eqn:Ht; [|destruct Hm].
    destruct Hm as [<-|[]]. cbn in Hempty. rewrite Hempty in Ht. discriminate.
Qed.

End MessageFacts.

Lemma empty_content_only_from_strings_witness :
  In (ISingle (SString EmptyString))
     [ISingle (SContent (Some "model") [TextPart "Hi"]); ISingle (SString EmptyString)].
Proof.
  apply (empty_content_only_from_strings test_config
           [ISingle (SContent (Some "model") [TextPart "Hi"]); ISingle (SString EmptyString)]
           None {| role := "user"; content := EmptyString |}).
  - cbn. right. left. reflexivity.
  - reflexivity.
Defined.

(* ================================================================== *)
(** ** Further properties of the stream parser *)
(* ================================================================== *)

Section StreamFacts.

Variable JSON_parse : string -> option ParsedEvent.

Lemma join_app (a b : list string) : join (a ++ b) = join a ++ join b.
Proof.
  induction a as [|x a IH]; cbn; [reflexivity|]. now rewrite IH, append_assoc.
Qed.

Lemma one_line_app (a b : string) : one_line a -> one_line b -> one_line (a ++ b).
Proof.
  unfold one_line. intros Ha Hb.
  induction a as [|x a IH]; [exact Hb|].
  cbn [append cut] in *. destruct (cut a) as [ls f].
  destruct (Ascii.eqb x LF); [discriminate|].
  destruct ls; [|discriminate].
  injection Ha as ->. now rewrite (IH eq_refl).
Qed.

(** The loop is left for good: chunks that follow a [return] are not read. *)
Lemma read_loop_return (chunks later : list string) :
  forall (buffer : string) (c : Counters),
    snd (read_loop JSON_parse buffer c chunks) = Return ->
    read_loop JSON_parse buffer c (chunks ++ later)
    = read_loop JSON_parse buffer c chunks.
Proof.
  induction chunks as [|v chunks IH]; intros buffer c H; [discriminate|].
  cbn [app Stream.read_loop] in *.
  destruct (read_chunk JSON_parse buffer c v) as [[[b1 c1] o1] [|]]; [|reflexivity].
  specialize (IH b1 c1).
  destruct (read_loop JSON_parse b1 c1 chunks) as [[[b2 c2] o2] sig].
  cbn [snd] in H, IH. now rewrite (IH H).
Qed.

Lemma process_done_line (c : Counters) :
  process_line JSON_parse c "data: [DONE]" = (c, [], Return).
Proof. reflexivity. Qed.

(** X4.  The sentinel line and a message_stop event end the sequence: what
    follows them, in the same chunk or in later ones, yields nothing and
    changes nothing. *)
Theorem nothing_after_the_end (c : Counters) (before after : list string)
    (stop : string) :
  stop = "data: [DONE]"
  \/ (exists data parsed,
         stop = "data: " ++ data /\ data <> "[DONE]"
         /\ JSON_parse data = Some parsed /\ ev_type parsed = Some "message_stop") ->
  snd (fst (process_lines JSON_parse c (before ++ stop :: after)))
  = snd (fst (process_lines JSON_parse c before))
  /\ snd (process_lines JSON_parse c (before ++ stop :: after)) = Return
  /\ (forall buffer chunks later,
         snd (read_loop JSON_parse buffer c chunks) = Return ->
         read_loop JSON_parse buffer c (chunks ++ later)
         = read_loop JSON_parse buffer c chunks).
Proof.
  intros Hstop.
  assert (Hline : forall c', process_line JSON_parse c' stop = (c', [], Return)).
  { intros c'. destruct Hstop as [-> | [data [parsed [-> [Hd [Hp Ht]]]]]].
    - apply process_done_line.
    - rewrite (process_data_line JSON_parse c' data parsed Hp Hd).
      unfold dispatch.
      rewrite (type_is_neq parsed "message_start") by (rewrite Ht; discriminate).
      rewrite (type_is_neq parsed "content_block_delta") by (rewrite Ht; discriminate).
      rewrite (type_is_neq parsed "message_delta") by (rewrite Ht; discriminate).
      now rewrite (type_is_eq parsed _ Ht). }
  rewrite process_lines_app.
  destruct (process_lines JSON_parse c before) as [[c1 o1] [|]].
  - cbn [Stream.process_lines]. rewrite Hline. cbn. rewrite app_nil_r.
    repeat split. intros buffer chunks later. apply read_loop_return.
  - repeat split. intros buffer chunks later. apply read_loop_return.
Qed.

(** X5.  A last piece of text without a line feed is never processed: what the
    stream ends with after its last line feed yields nothing, even when
    it is a whole event. *)
Theorem unterminated_tail_is_dropped (chunks : list string) (tail : string) :
  one_line tail ->
  streamGenerator JSON_parse (chunks ++ [tail]) = streamGenerator JSON_parse chunks.
Proof.
  intros Htail. rewrite !streamGenerator_lines.
  rewrite join_app. cbn [join]. rewrite append_nil_r.
  rewrite complete_lines_app.
  assert (H : complete_lines (fragment (join chunks) ++ tail) = []).
  { unfold complete_lines.
    now rewrite (one_line_app _ _ (cut_fragment (join chunks)) Htail). }
  rewrite H. now rewrite app_nil_r.
Qed.

Lemma irrelevant_line (c : Counters) (line : string) :
  relevant JSON_parse line = false ->
  process_line JSON_parse c line = (c, [], Next).
Proof.
  unfold relevant, process_line. intros H.
  destruct (String.eqb (trim line) EmptyString); [reflexivity|].
  destruct (startsWith line "data: "); [|reflexivity].
  cbn [andb] in H. apply orb_false_iff in H. destruct H as [Hd Hp].
  rewrite Hd. now destruct (JSON_parse (slice 6 line)).
Qed.

(** X6.  Blank lines, lines that are not data lines (event names, comments) and
    data lines whose payload does not parse are skipped without a trace:
    taking them out of the stream changes neither the responses nor the
    counters nor where the sequence ends. *)
Theorem skipped_lines_leave_no_trace (c : Counters) (lines : list string) :
  process_lines JSON_parse c (filter (relevant JSON_parse) lines)
  = process_lines JSON_parse c lines.
Proof.
  revert c. induction lines as [|line lines IH]; intros c; [reflexivity|].
  cbn [filter]. destruct (relevant JSON_parse line) eqn:Hr.
  - cbn [Stream.process_lines].
    destruct (process_line JSON_parse c line) as [[c1 o1] [|]]; [|reflexivity].
    now rewrite IH.
  - cbn [Stream.process_lines]. rewrite (irrelevant_line c line Hr).
    rewrite IH. now destruct (process_lines JSON_parse c lines) as [[c2 o2] sig].
Qed.

Lemma dispatch_partial (c : Counters) (parsed : ParsedEvent) :
  Forall partial_response (snd (fst (dispatch c parsed))).
Proof.
  unfold dispatch.
  destruct (type_is parsed "message_start"); [constructor|].
  destruct (type_is parsed "content_block_delta").
  - destruct (truthy (or_str (delta_text parsed) EmptyString)) eqn:Ht; [|constructor].
    constructor; [|constructor]. split; [|split; reflexivity].
    now apply truthy_true_iff.
  - destruct (type_is parsed "message_delta"); [constructor|].
    destruct (type_is parsed "message_stop"); constructor.
Qed.

Lemma process_line_partial (c : Counters) (line : string) :
  Forall partial_response (snd (fst (process_line JSON_parse c line))).
Proof.
  unfold process_line.
  destruct (String.eqb (trim line) EmptyString); [constructor|].
  destruct (startsWith line "data: "); [|constructor].
  destruct (String.eqb (slice 6 line) "[DONE]"); [constructor|].
  destruct (JSON_parse (slice 6 line)); [apply dispatch_partial | constructor].
Qed.

Lemma process_lines_partial (lines : list string) :
  forall c, Forall partial_response (snd (fst (process_lines JSON_parse c lines))).
Proof.
  induction lines as [|line lines IH]; intros c; [constructor|].
  cbn [Stream.process_lines].
  pose proof (process_line_partial c line) as Hl.
  destruct (process_line JSON_parse c line) as [[c1 o1] [|]]; [|exact Hl].
  specialize (IH c1). destruct (process_lines JSON_parse c1 lines) as [[c2 o2] sig].
  cbn [fst snd] in *. apply Forall_app. now split.
Qed.

(** X7.  Every response of the stream is a partial one: a non-empty text as
    the one part of its one candidate, of role model, with no finish
    reason, and a total that is the sum of the two counts. *)
Theorem stream_yields_partial_responses (chunks : list string) :
  Forall partial_response (streamGenerator JSON_parse chunks).
Proof.
  rewrite streamGenerator_lines. apply process_lines_partial.
Qed.

End StreamFacts.

Lemma nothing_after_the_end_witness :
  snd (process_lines sample_parse initial ["data: D"; "data: [DONE]"; "data: D"]) = Return
  /\ snd (fst (process_lines sample_parse initial
                  ["data: D"; "data: [DONE]"; "data: D"]))
     = [createStreamResponse "hi" 0 0]
  /\ read_loop sample_parse EmptyString initial
       (["data: [DONE]" ++ String LF EmptyString] ++ ["data: D" ++ String LF EmptyString])
     = (EmptyString, initial, [], Return).
Proof.
  destruct (nothing_after_the_end sample_parse initial ["data: D"] ["data: D"]
              "data: [DONE]" (or_introl eq_refl)) as [Hout [Hsig Hloop]].
  split; [exact Hsig|]. split.
  - cbn [app] in Hout. rewrite Hout. reflexivity.
  - rewrite (Hloop EmptyString ["data: [DONE]" ++ String LF EmptyString]
               ["data: D" ++ String LF EmptyString] eq_refl).
    reflexivity.
Defined.

Lemma unterminated_tail_is_dropped_witness :
  streamGenerator sample_parse ["data: S" ++ String LF EmptyString; "data: D"] = [].
Proof.
  exact (eq_trans
           (unterminated_tail_is_dropped sample_parse
              ["data: S" ++ String LF EmptyString] "data: D" eq_refl)
           eq_refl).
Defined.

(* ================================================================== *)
(** ** Further properties of the token storage *)
(* ================================================================== *)

Section StoreFacts.

Variable token_endpoint : TokenRequest -> Fetch TokenResponse.

(** The lookup on a stored OAuth record that is not good as it stands. *)
Lemma refresh_run (w : World) (t : OAuthTokens) :
  authFile w = Some t ->
  type t = "oauth" ->
  access t = EmptyString \/ (expires t <= now w)%Z ->
  let grant := RefreshGrant (refresh t) CLIENT_ID in
  let w1 := log_token_call w grant in
  getAnthropicAccessToken token_endpoint w
  = match token_endpoint grant with
    | Rejected _ => (Ok None, w1)
    | Responded r =>
        if ok r then
          match body_json r with
          | Ok nt =>
              if disk_ok w
              then (Ok (Some (access_token nt)),
                    set_authFile w1
                      (Some {| type := "oauth";
                               access := access_token nt;
                               refresh := refresh_token_ nt;
                               expires := now w + expires_in nt * 1000 |}))
              else (Ok None, w1)
          | Throw _ => (Ok None, w1)
          end
        else (Ok None, w1)
    end.
Proof.
  intros Hf Ht Hstale grant w1. apply String.eqb_eq in Ht.
  assert (Hguard : truthy (access t) && (now w <? expires t)%Z = false).
  { destruct Hstale as [-> | Hexp]; [reflexivity|].
    apply Z.ltb_ge in Hexp. rewrite Hexp. apply andb_false_r. }
  run_m. rewrite Hf. unfold is_oauth. rewrite Ht. cbn [negb]. cbv beta.
  rewrite Hguard. fold grant.
  destruct (token_endpoint grant) as [e|r]; [reflexivity|].
  destruct (ok r); cbn [negb]; [|reflexivity].
  destruct (body_json r); [|reflexivity].
  subst w1. cbn [log_token_call disk_ok now].
  now destruct (disk_ok w).
Qed.

Lemma valid_run (w : World) (t : OAuthTokens) :
  authFile w = Some t ->
  type t = "oauth" ->
  access t <> EmptyString ->
  (now w < expires t)%Z ->
  getAnthropicAccessToken token_endpoint w = (Ok (Some (access t)), w).
Proof.
  intros Hf Ht Ha Hn. apply String.eqb_eq in Ht.
  apply truthy_true_iff in Ha. apply Z.ltb_lt in Hn.
  run_m. rewrite Hf. unfold is_oauth. rewrite Ht. cbn [negb]. cbv beta.
  now rewrite Ha, Hn.
Qed.

Lemma stale_or_valid (w : World) (t : OAuthTokens) :
  (access t <> EmptyString /\ (now w < expires t)%Z)
  \/ (access t = EmptyString \/ (expires t <= now w)%Z).
Proof.
  destruct (access t) eqn:Ha; [right; now left|].
  destruct (Z.lt_ge_cases (now w) (expires t)); [left | right; right]; try lia.
  split; [discriminate | assumption].
Qed.

(** X8.  A token that the lookup returns is the access token of the OAuth
    record that the store holds after the call; a lookup that gives null
    has left the store as it was; and no lookup removes a stored record. *)
Theorem lookup_agrees_with_store (w w' : World) (r : option string) :
  getAnthropicAccessToken token_endpoint w = (Ok r, w') ->
  (r = None -> authFile w' = authFile w)
  /\ (forall tok, r = Some tok ->
         exists rec, authFile w' = Some rec /\ type rec = "oauth" /\ access rec = tok)
  /\ (authFile w <> None -> authFile w' <> None).
Proof.
  intros Hrun.
  assert (Hnull : forall v, (@Ok (option string) None, v) = (Ok r, w') -> authFile v = authFile w ->
            (r = None -> authFile w' = authFile w)
            /\ (forall tok, r = Some tok ->
                   exists rec, authFile w' = Some rec /\ type rec = "oauth"
                               /\ access rec = tok)
            /\ (authFile w <> None -> authFile w' <> None)).
  { intros v H Hv. injection H as <- <-. split; [now intros _|].
    split; [discriminate|]. now rewrite Hv. }
  destruct (authFile w) as [t|] eqn:Hf.
  - destruct (String.eqb_spec (type t) "oauth") as [Ht|Ht].
    + destruct (stale_or_valid w t) as [[Ha Hn]|Hstale].
      * rewrite (valid_run w t Hf Ht Ha Hn) in Hrun. injection Hrun as <- <-.
        split; [discriminate|]. split; [|now rewrite Hf].
        intros tok H. injection H as <-. now exists t.
      * rewrite (refresh_run w t Hf Ht Hstale) in Hrun. cbv zeta in Hrun.
        destruct (token_endpoint _) as [e|resp];
          [apply (Hnull _ Hrun); cbn; now rewrite Hf|].
        destruct (ok resp); [|apply (Hnull _ Hrun); cbn; now rewrite Hf].
        destruct (body_json resp) as [nt|e];
          [|apply (Hnull _ Hrun); cbn; now rewrite Hf].
        destruct (disk_ok w); [|apply (Hnull _ Hrun); cbn; now rewrite Hf].
        injection Hrun as <- <-. cbn.
        split; [discriminate|]. split; [|discriminate].
        intros tok H. injection H as <-. eexists. repeat split.
    + apply String.eqb_neq in Ht.
      assert (H : getAnthropicAccessToken token_endpoint w = (Ok None, w)).
      { run_m. rewrite Hf. unfold is_oauth. now rewrite Ht. }
      rewrite H in Hrun. apply (Hnull w); [exact Hrun | now rewrite Hf].
  - assert (H : getAnthropicAccessToken token_endpoint w = (Ok None, w)).
    { run_m. now rewrite Hf. }
    rewrite H in Hrun. apply (Hnull w); [exact Hrun | now rewrite Hf].
Qed.


End StoreFacts.

Lemma lookup_agrees_with_store_witness :
  exists rec,
    authFile (at_rest (Some valid_tokens)) = Some rec
    /\ type rec = "oauth" /\ access rec = "tok".
Proof.
  destruct (lookup_agrees_with_store offline (at_rest (Some valid_tokens))
              (at_rest (Some valid_tokens)) (Some "tok") eq_refl) as [_ [H _]].
  exact (H "tok" eq_refl).
Defined.


(* ================================================================== *)
(** ** Further properties of the content generator facade *)
(* ================================================================== *)

Section CallFacts.

Variable token_endpoint : TokenRequest -> Fetch TokenResponse.
Variable chat_endpoint : ChatCall -> Fetch AnthropicResponse.
Variable JSON_parse : string -> option ParsedEvent.
Variable cfg : AnthropicConfig.


(** X11.  An answer of the chat endpoint that is not ok is reported with its
    status, its status text and its body, for a plain call and for a
    stream alike; the world is the one the token lookup left. *)
Theorem provider_error_is_reported (request : GenerateContentRequest)
    (w w' : World) (call : ChatCall) (r : HttpResponse AnthropicResponse) :
  prepare token_endpoint cfg false request w = (Ok call, w') ->
  (forall c, chat_endpoint c = Responded r) ->
  ok r = false ->
  let report :=
    "Anthropic API error: " ++ show_status (status r) ++ " " ++ statusText r
    ++ " - " ++ body_text r in
  generateContent token_endpoint chat_endpoint cfg request w
  = (Throw ("Failed to generate content with Anthropic: " ++ show_error report), w')
  /\ generateContentStream token_endpoint chat_endpoint JSON_parse cfg request w
     = (Throw ("Failed to generate streaming content with Anthropic: "
               ++ show_error report), w').
Proof.
  intros Hp He Hok report.
  assert (Hp' : prepare token_endpoint cfg true request w
                = (Ok {| call_url := call_url call; call_headers := call_headers call;
                         call_body := call_body call; call_stream := true |}, w')).
  { destruct (getAnthropicAccessToken_frame token_endpoint w) as [tok [w1 [Hl _]]].
    rewrite (prepare_unfold token_endpoint cfg false request w w1 tok Hl) in Hp.
    rewrite (prepare_unfold token_endpoint cfg true request w w1 tok Hl).
    destruct (negb _ && negb _); [discriminate|].
    injection Hp as <- <-. reflexivity. }
  split.
  - unfold generateContent, catchM, bindM, fetch_chat, throw. rewrite Hp, He, Hok.
    reflexivity.
  - unfold generateContentStream, catchM, bindM, fetch_chat, throw.
    rewrite Hp', He, Hok. reflexivity.
Qed.

(** X12.  A configured API key does not keep the facade from the token lookup:
    with a stored OAuth record that is expired, or has an empty access
    token, every call posts a refresh grant first, key or no key. *)
Theorem api_key_does_not_stop_refresh (stream : bool)
    (request : GenerateContentRequest) (w : World) (t : OAuthTokens) :
  authFile w = Some t ->
  type t = "oauth" ->
  access t = EmptyString \/ (expires t <= now w)%Z ->
  token_calls (snd (prepare token_endpoint cfg stream request w))
  = (token_calls w ++ [RefreshGrant (refresh t) CLIENT_ID])%list.
Proof.
  intros Hf Ht Hstale.
  destruct (getAnthropicAccessToken_frame token_endpoint w) as [tok [w1 [Hl _]]].
  rewrite (prepare_unfold token_endpoint cfg stream request w w1 tok Hl).
  assert (Hcalls : token_calls w1
                   = (token_calls w ++ [RefreshGrant (refresh t) CLIENT_ID])%list).
  { rewrite (refresh_run token_endpoint w t Hf Ht Hstale) in Hl. cbv zeta in Hl.
    destruct (token_endpoint _) as [e|resp]; [now injection Hl as _ <-|].
    destruct (ok resp); [|now injection Hl as _ <-].
    destruct (body_json resp); [|now injection Hl as _ <-].
    destruct (disk_ok w); now injection Hl as _ <-. }
  now destruct (negb _ && negb _).
Qed.

End CallFacts.

Section CountFacts.

Variable JSON_stringify : Contents -> string.

(** X13.  The estimate is the serialized length divided by four and rounded
    up: four times the estimate is at least the length and less than the
    length plus four, so that any non-empty serialization counts at least
    one token and a longer one never counts fewer. *)
Theorem countTokens_bounds (contents : Contents) :
  let n := Z.of_nat (String.length (JSON_stringify contents)) in
  let t := countTokens JSON_stringify contents in
  (n <= 4 * t < n + 4)%Z
  /\ (0 < n -> 0 < t)%Z
  /\ (forall other,
         (n <= Z.of_nat (String.length (JSON_stringify other)))%Z ->
         (t <= countTokens JSON_stringify other)%Z).
Proof.
  intros n t.
  assert (Hb : forall m : Z, (m <= 4 * Qceiling (m # 4) < m + 4)%Z).
  { intros m. pose proof (Qle_ceiling (m # 4)) as H1.
    pose proof (Qceiling_lt (m # 4)) as H2.
    unfold Qle, Qlt in H1, H2. cbn [Qnum Qden inject_Z] in H1, H2. lia. }
  subst n t. unfold countTokens.
  pose proof (Hb (Z.of_nat (String.length (JSON_stringify contents)))) as Hn.
  split; [exact Hn|]. split; [lia|].
  intros other Hle.
  pose proof (Hb (Z.of_nat (String.length (JSON_stringify other)))) as Ho.
  lia.
Qed.

End CountFacts.


Lemma provider_error_is_reported_witness :
  fst (generateContent offline unauthorized test_config hello_request (at_rest None))
  = Throw ("Failed to generate content with Anthropic: Error: "
           ++ "Anthropic API error: 401 Unauthorized - Invalid API key").
Proof.
  destruct (provider_error_is_reported offline unauthorized sample_parse test_config
              hello_request (at_rest None) (at_rest None) _ _
              eq_refl (fun _ => eq_refl) eq_refl) as [H _].
  rewrite H. reflexivity.
Defined.

Lemma api_key_does_not_stop_refresh_witness :
  token_calls (snd (prepare offline test_config false hello_request
                      (at_rest (Some expired_tokens))))
  = [RefreshGrant "ref" CLIENT_ID].
Proof.
  apply (api_key_does_not_stop_refresh offline test_config false hello_request
           (at_rest (Some expired_tokens)) expired_tokens).
  - reflexivity.
  - reflexivity.
  - right. vm_compute. discriminate.
Defined.

Lemma countTokens_bounds_witness :
  (0 < countTokens sample_stringify (contents hello_request))%Z.
Proof.
  destruct (countTokens_bounds sample_stringify (contents hello_request))
    as [_ [Hpos _]].
  apply Hpos. reflexivity.
Defined.

(* ================================================================== *)
(** ** Further properties of the code exchange and the completion *)
(* ================================================================== *)

Section ExchangeFacts.

Variable token_endpoint : TokenRequest -> Fetch TokenResponse.
Variable URL_searchParams : string -> option (string -> option string).

Lemma long_is_truthy (s : string) : (10 <= String.length s)%nat -> truthy s = true.
Proof. destruct s; cbn; [lia | reflexivity]. Qed.

(** The exchange of a code of plausible length, step by step. *)
Lemma exchange_run (code verifier authCode st : string) (w : World) :
  parse_input URL_searchParams (clean code) = Ok (authCode, st) ->
  (10 <= String.length authCode)%nat ->
  let grant :=
    CodeGrant authCode (if truthy st then st else verifier)
              CLIENT_ID REDIRECT_URI verifier in
  let w1 := log_token_call w grant in
  exchangeCodeForTokens token_endpoint URL_searchParams code verifier w
  = match token_endpoint grant with
    | Rejected e => (Throw e, w1)
    | Responded r =>
        if ok r then
          match body_json r with
          | Ok tokens =>
              if disk_ok w
              then (Ok tt,
                    set_authFile w1
                      (Some {| type := "oauth";
                               access := access_token tokens;
                               refresh := refresh_token_ tokens;
                               expires := now w + expires_in tokens * 1000 |}))
              else (Throw "Failed to store authentication tokens", w1)
          | Throw e => (Throw e, w1)
          end
        else (Throw (exchange_error r), w1)
    end.
Proof.
  intros Hp Hlen grant w1.
  unfold exchangeCodeForTokens, bindM, liftO, throw, Core.get, storeTokens, post_token.
  rewrite Hp. cbn [fst snd]. rewrite (long_is_truthy authCode Hlen). cbn [negb].
  replace (Nat.ltb (String.length authCode) 10) with false
    by (symmetry; apply Nat.ltb_ge; exact Hlen).
  fold grant. destruct (token_endpoint grant) as [e|r]; [reflexivity|].
  destruct (ok r); cbn [negb]; [|reflexivity].
  destruct (body_json r); [|reflexivity].
  subst w1. cbn [log_token_call disk_ok now]. now destruct (disk_ok w).
Qed.

(** The exchange touches the store only when it succeeds, and the
    globals of the flow and the browser never. *)
Lemma exchange_frame (code verifier : string) (w : World) :
  let result := exchangeCodeForTokens token_endpoint URL_searchParams code verifier w in
  flow (snd result) = flow w
  /\ opened (snd result) = opened w
  /\ (forall msg, fst result = Throw msg -> authFile (snd result) = authFile w)
  /\ (fst result = Ok tt ->
      exists tokens,
        authFile (snd result)
        = Some {| type := "oauth";
                  access := access_token tokens;
                  refresh := refresh_token_ tokens;
                  expires := now w + expires_in tokens * 1000 |}).
Proof.
  cbv zeta.
  destruct (parse_input URL_searchParams (clean code)) as [[authCode st]|e] eqn:Hp.
  - destruct (Nat.ltb (String.length authCode) 10) eqn:Hlen.
    + apply Nat.ltb_lt in Hlen.
      destruct (exchange_rejects_short_code token_endpoint URL_searchParams
                  code verifier authCode st w Hp Hlen) as [msg [Hx _]].
      rewrite Hx. cbn. repeat split; discriminate.
    + apply Nat.ltb_ge in Hlen.
      rewrite (exchange_run code verifier authCode st w Hp Hlen). cbv zeta.
      destruct (token_endpoint _) as [e|r]; [cbn; repeat split; discriminate|].
      destruct (ok r); [|cbn; repeat split; discriminate].
      destruct (body_json r) as [tokens|e]; [|cbn; repeat split; discriminate].
      destruct (disk_ok w); [|cbn; repeat split; discriminate].
      cbn. repeat split; [discriminate|]. intros _. now exists tokens.
  - unfold exchangeCodeForTokens, bindM, liftO. rewrite Hp. cbn.
    repeat split; discriminate.
Qed.


(** X15.  A completion that gets as far as the exchange ends with the globals
    at rest, however the exchange ends; the stored credential changes
    only when the completion succeeds, and then to an OAuth record. *)
Theorem completion_always_resets (w : World) (s : Session) (code : string) :
  oauthSession (flow w) = Some s ->
  isCompletingOAuth (flow w) = false ->
  let result :=
    completeAnthropicOAuthWithCode token_endpoint URL_searchParams code w in
  flow (snd result) = idle
  /\ opened (snd result) = opened w
  /\ (forall msg, fst result = Throw msg -> authFile (snd result) = authFile w)
  /\ (fst result = Ok tt ->
      exists rec, authFile (snd result) = Some rec /\ type rec = "oauth").
Proof.
  intros Hs Hc result. subst result.
  unfold completeAnthropicOAuthWithCode, bindM, Core.get, ret.
  rewrite Hs, Hc. unfold modify, catchM, bindM, throw.
  pose proof (exchange_frame code (verifier s) (set_completing true w)) as Hx.
  cbv zeta in Hx.
  destruct (exchangeCodeForTokens token_endpoint URL_searchParams code
              (verifier s) (set_completing true w)) as [[[]|e] w1];
    cbn [fst snd] in *; destruct Hx as [Hflow [Hop [Hthrow Hok]]].
  - repeat split; [now destruct w1 | discriminate|].
    intros _. destruct (Hok eq_refl) as [tokens Hrec].
    eexists. split; [destruct w1; exact Hrec | reflexivity].
  - repeat split; [now destruct w1| |discriminate].
    intros msg _. destruct w1. cbn in *. rewrite (Hthrow e eq_refl). now destruct w.
Qed.

End ExchangeFacts.


Lemma completion_always_resets_witness :
  flow (snd (completeAnthropicOAuthWithCode offline no_url "authorization-code"
               awaiting_code)) = idle
  /\ authFile (snd (completeAnthropicOAuthWithCode offline no_url "authorization-code"
                      awaiting_code)) = None.
Proof.
  destruct (completion_always_resets offline no_url awaiting_code
              (generateAuthorizationUrl pkce1) "authorization-code" eq_refl eq_refl)
    as [Hflow [_ [Hthrow _]]].
  split; [exact Hflow|]. exact (Hthrow "fetch failed" eq_refl).
Defined.

(* ================================================================== *)
(** ** Sequences of calls on the session manager *)
(* ================================================================== *)

Section LifecycleFacts.

Variable token_endpoint : TokenRequest -> Fetch TokenResponse.
Variable URL_searchParams : string -> option (string -> option string).

(** What a start does to the session and to the browser. *)
Lemma start_effects (pkce : PKCE) (w w' : World) (r : FlowResult) :
  startAnthropicOAuthFlow token_endpoint pkce w = (Ok r, w') ->
  (message r = Started /\
   res_url r = url (generateAuthorizationUrl pkce) /\
   opened w' = (opened w ++ [res_url r])%list /\
   flow w' = {| oauthSession := Some (generateAuthorizationUrl pkce);
                isOAuthInProgress := true;
                isCompletingOAuth := isCompletingOAuth (flow w);
                oauthLock := false |})
  \/ (message r = InProgressAfterLock /\ w' = w /\ oauthLock (flow w) = true
      /\ exists s, oauthSession (flow w) = Some s /\ res_url r = url s)
  \/ ((message r = AlreadyAuthenticated \/ message r = InProgress) /\
      opened w' = opened w /\
      flow w' = {| oauthSession := oauthSession (flow w);
                   isOAuthInProgress := isOAuthInProgress (flow w);
                   isCompletingOAuth := isCompletingOAuth (flow w);
                   oauthLock := false |}).
Proof.
  intros Hrun.
  destruct (hasValidAnthropicTokens_frame token_endpoint (set_lock true w))
    as [b [w1 [Hv [Hf Ho]]]].
  rewrite (start_unfold token_endpoint pkce w w1 b Hv) in Hrun.
  destruct w as [file disk clock env calls [session inProgress completing lock] op].
  destruct w1 as [file1 disk1 clock1 env1 calls1 flow1 op1].
  cbn [flow set_lock set_flow oauthSession isOAuthInProgress isCompletingOAuth
         oauthLock opened] in *.
  subst flow1 op1.
  cbn [oauthSession isOAuthInProgress isCompletingOAuth oauthLock] in Hrun.
  destruct (if lock then session else None) as [s|] eqn:Hearly.
  - injection Hrun as <- <-. right. left.
    destruct lock; [|discriminate]. subst session.
    repeat split. now exists s.
  - destruct b.
    + injection Hrun as <- <-. right. right. cbn. repeat split. now left.
    + destruct (if inProgress || completing then session else None) as [s|].
      * injection Hrun as <- <-. right. right. cbn. repeat split. now right.
      * injection Hrun as <- <-. left. cbn. repeat split.
Qed.

(** X16.  The browser is opened only by the start that stores a new session,
    and then once, with the URL that is returned; every other start
    leaves the session and the list of opened URLs as they were. *)
Theorem browser_opens_with_new_session_only (pkce : PKCE) (w w' : World)
    (r : FlowResult) :
  startAnthropicOAuthFlow token_endpoint pkce w = (Ok r, w') ->
  (message r = Started ->
   opened w' = (opened w ++ [res_url r])%list
   /\ oauthSession (flow w') = Some (generateAuthorizationUrl pkce)
   /\ res_url r = url (generateAuthorizationUrl pkce))
  /\ (message r <> Started ->
      opened w' = opened w /\ oauthSession (flow w') = oauthSession (flow w)).
Proof.
  intros Hrun.
  destruct (start_effects pkce w w' r Hrun)
    as [[Hm [Hu [Ho Hf]]] | [[Hm [Hw _]] | [Hm [Ho Hf]]]].
  - split; [|congruence]. intros _. rewrite Hf. now repeat split.
  - split; [rewrite Hm; discriminate|]. intros _. now subst w'.
  - split; [destruct Hm as [Hm|Hm]; rewrite Hm; discriminate|].
    intros _. rewrite Hf. now split.
Qed.

Lemma step_settled (w : World) (op : Op) :
  settled (flow w) ->
  settled (flow (step token_endpoint URL_searchParams w op)).
Proof.
  intros Hw. pose proof Hw as [Hlock [Hcomp Hiff]].
  destruct op as [pkce|code|]; cbn [step].
  - destruct (start_twice_cases token_endpoint pkce pkce w)
      as [r [w1 [_ [_ [Hrun _]]]]].
    rewrite Hrun. cbn [snd].
    destruct (start_effects pkce w w1 r Hrun)
      as [[_ [_ [_ Hf]]] | [[_ [_ [Hl _]]] | [_ [_ Hf]]]].
    + rewrite Hf. cbn. split; [reflexivity|]. split; [exact Hcomp|].
      split; [intros _; discriminate | reflexivity].
    + congruence.
    + rewrite Hf. cbn. split; [reflexivity|]. split; [exact Hcomp | exact Hiff].
  - unfold completeAnthropicOAuthWithCode, bindM, Core.get, ret, throw.
    assert (Hidle : settled idle).
    { cbn. split; [reflexivity|]. split; [reflexivity|].
      split; [discriminate | intros H; now elim H]. }
    destruct (oauthSession (flow w)) as [s|] eqn:Hs.
    2:{ exact Hw. }
    rewrite Hcomp. unfold modify, catchM, bindM, throw.
    destruct (exchangeCodeForTokens _ _ _ _ _) as [[[]|e] w1]; cbn [snd];
      destruct w1; exact Hidle.
  - destruct w. cbn. split; [reflexivity|]. split; [reflexivity|].
    split; [discriminate | intros H; now elim H].
Qed.

(** X17.  Between calls the session manager is always at rest or awaiting a
    code: after any sequence of starts, completions and cancellations,
    whatever their inputs and outcomes, the lock is free, no completion is
    marked as under way, and the progress flag is set exactly when a
    session is stored.  So a start never takes the exit behind the lock. *)
Theorem manager_stays_settled (w : World) (ops : list Op) :
  settled (flow w) ->
  settled (flow (run token_endpoint URL_searchParams w ops))
  /\ (forall pkce r w',
         startAnthropicOAuthFlow token_endpoint pkce
           (run token_endpoint URL_searchParams w ops) = (Ok r, w') ->
         message r <> InProgressAfterLock).
Proof.
  intros Hw.
  assert (Hrun : settled (flow (run token_endpoint URL_searchParams w ops))).
  { unfold run. revert w Hw. induction ops as [|op ops IH]; intros w Hw; [exact Hw|].
    cbn [fold_left]. apply IH. now apply step_settled. }
  split; [exact Hrun|].
  intros pkce r w' Hstart Hm.
  destruct (start_effects pkce _ w' r Hstart)
    as [[Hm' _] | [[_ [_ [Hl _]]] | [[Hm'|Hm'] _]]]; try congruence.
  destruct Hrun as [Hlock _]. congruence.
Qed.

(** X18.  A cancellation forgets the session: a completion that follows fails
    with the no-session error and posts nothing, and the next start with
    no valid credential draws a new session and returns its URL, not the
    old one.  Cancelling twice is cancelling once. *)
Theorem cancel_forgets_session (w : World) (pkce_a pkce_b : PKCE) (code : string) :
  authFile w = None ->
  let w1 := step token_endpoint URL_searchParams w (OpStart pkce_a) in
  let w2 := step token_endpoint URL_searchParams w1 OpCancel in
  flow w2 = idle
  /\ step token_endpoint URL_searchParams w2 OpCancel = w2
  /\ completeAnthropicOAuthWithCode token_endpoint URL_searchParams code w2
     = (Throw NO_SESSION, w2)
  /\ exists w3,
       startAnthropicOAuthFlow token_endpoint pkce_b w2
       = (Ok {| res_url := url (generateAuthorizationUrl pkce_b); message := Started |},
          w3)
       /\ oauthSession (flow w3) = Some (generateAuthorizationUrl pkce_b).
Proof.
  intros Hf w1 w2.
  destruct (start_twice_cases token_endpoint pkce_a pkce_a w)
    as [r1 [w1' [_ [_ [Hrun1 _]]]]].
  destruct (no_record_not_authenticated token_endpoint pkce_a w w1' r1 Hf Hrun1)
    as [_ Hf1].
  assert (Hw1 : w1 = w1') by (subst w1; cbn [step]; now rewrite Hrun1).
  assert (Hidle : flow w2 = idle) by (subst w2; now destruct w1).
  assert (Hfile : authFile w2 = None).
  { subst w2. rewrite Hw1. destruct w1'. exact Hf1. }
  split; [exact Hidle|]. split; [|split].
  - cbn [step]. destruct w2. cbn in *. now subst.
  - unfold completeAnthropicOAuthWithCode, bindM, Core.get, throw.
    now rewrite Hidle.
  - assert (Hv : hasValidAnthropicTokens token_endpoint (set_lock true w2)
                 = (Ok false, set_lock true w2)).
    { run_m. destruct w2. cbn in Hfile |- *. now rewrite Hfile. }
    rewrite (start_unfold token_endpoint pkce_b w2 _ false Hv).
    destruct w2 as [file disk clock env calls fl op]. cbn in Hidle. subst fl.
    cbn. eexists. split; reflexivity.
Qed.

End LifecycleFacts.

Lemma browser_opens_with_new_session_only_witness :
  opened (snd (startAnthropicOAuthFlow offline pkce1 (at_rest None)))
  = [url (generateAuthorizationUrl pkce1)]
  /\ opened (snd (startAnthropicOAuthFlow offline pkce2 awaiting_code))
     = opened awaiting_code.
Proof.
  split.
  - destruct (browser_opens_with_new_session_only offline pkce1 (at_rest None) _ _
                eq_refl) as [H _].
    exact (proj1 (H eq_refl)).
  - destruct (browser_opens_with_new_session_only offline pkce2 awaiting_code _ _
                eq_refl) as [_ H].
    exact (proj1 (H ltac:(discriminate))).
Defined.

Lemma manager_stays_settled_witness :
  settled (flow (run granting no_url (at_rest None)
                   [OpStart pkce1; OpComplete "abc"; OpStart pkce2;
                    OpComplete "authorization-code"; OpCancel])).
Proof.
  apply (manager_stays_settled granting no_url (at_rest None)).
  cbn. split; [reflexivity|]. split; [reflexivity|].
  split; [discriminate | intros H; now elim H].
Defined.

Lemma cancel_forgets_session_witness :
  completeAnthropicOAuthWithCode granting no_url "authorization-code"
    (step granting no_url (step granting no_url (at_rest None) (OpStart pkce1)) OpCancel)
  = (Throw NO_SESSION,
     step granting no_url (step granting no_url (at_rest None) (OpStart pkce1)) OpCancel).
Proof.
  destruct (cancel_forgets_session granting no_url (at_rest None) pkce1 pkce2
              "authorization-code" eq_refl) as [_ [_ [H _]]].
  exact H.
Defined.

Section WholeFlowFacts.

Variable token_endpoint : TokenRequest -> Fetch TokenResponse.
Variable URL_searchParams : string -> option (string -> option string).

(** A start from rest with an empty store draws a session. *)
Lemma start_from_rest (w : World) (pkce : PKCE) :
  authFile w = None ->
  flow w = idle ->
  startAnthropicOAuthFlow token_endpoint pkce w
  = (Ok {| res_url := url (generateAuthorizationUrl pkce); message := Started |},
     log_opened
       (set_flow w {| oauthSession := Some (generateAuthorizationUrl pkce);
                      isOAuthInProgress := true;
                      isCompletingOAuth := false;
                      oauthLock := false |})
       (url (generateAuthorizationUrl pkce))).
Proof.
  intros Hf Hflow.
  destruct w as [file disk clock env calls fl op]. cbn in Hf, Hflow. subst file fl.
  erewrite start_unfold by reflexivity. reflexivity.
Qed.

(** A completion whose exchange goes through. *)
Lemma complete_success (w : World) (s : Session) (code authCode st : string)
    (resp : HttpResponse TokenResponse) (tokens : TokenResponse) :
  oauthSession (flow w) = Some s ->
  isCompletingOAuth (flow w) = false ->
  disk_ok w = true ->
  parse_input URL_searchParams (clean code) = Ok (authCode, st) ->
  (10 <= String.length authCode)%nat ->
  let grant :=
    CodeGrant authCode (if truthy st then st else verifier s)
              CLIENT_ID REDIRECT_URI (verifier s) in
  token_endpoint grant = Responded resp ->
  ok resp = true ->
  body_json resp = Ok tokens ->
  completeAnthropicOAuthWithCode token_endpoint URL_searchParams code w
  = (Ok tt,
     set_flow
       (set_authFile (log_token_call w grant)
          (Some {| type := "oauth";
                   access := access_token tokens;
                   refresh := refresh_token_ tokens;
                   expires := now w + expires_in tokens * 1000 |}))
       idle).
Proof.
  intros Hs Hc Hd Hp Hlen grant He Hok Hj.
  unfold completeAnthropicOAuthWithCode, bindM, Core.get, ret.
  rewrite Hs, Hc. unfold modify, catchM, bindM.
  rewrite (exchange_run token_endpoint URL_searchParams code (verifier s)
             authCode st _ Hp Hlen).
  cbv zeta. fold grant. rewrite He, Hok, Hj.
  destruct w as [file disk clock env calls fl op]. cbn in Hd. subst disk.
  reflexivity.
Qed.


End WholeFlowFacts.


(* ================================================================== *)
(** ** The cleaning and parsing of the pasted code *)
(* ================================================================== *)

Section CleaningFacts.

Lemma all_chars_app (p : ascii -> bool) (a b : string) :
  all_chars p (a ++ b) = all_chars p a && all_chars p b.
Proof.
  induction a as [|c a IH]; cbn; [reflexivity|]. now rewrite IH, andb_assoc.
Qed.

Lemma all_chars_impl (p q : ascii -> bool) (s : string) :
  (forall c, p c = true -> q c = true) ->
  all_chars p s = true -> all_chars q s = true.
Proof.
  intros Hpq. induction s as [|c s IH]; cbn; [reflexivity|].
  intros H. apply andb_prop in H. destruct H as [Hc Hs].
  now rewrite (Hpq c Hc), (IH Hs).
Qed.

Lemma tidy_char_parts (c : ascii) :
  tidy_char c = true ->
  is_space c = false /\ is_not ESC c = true /\ is_not "["%char c = true
  /\ is_not "_"%char c = true.
Proof.
  unfold tidy_char. intros H.
  apply andb_prop in H. destruct H as [H H4].
  apply andb_prop in H. destruct H as [H H3].
  apply andb_prop in H. destruct H as [H1 H2].
  apply negb_true_iff in H1. now repeat split.
Qed.

Lemma tidy_no (a : ascii) (s : string) :
  a = ESC \/ a = "["%char \/ a = "_"%char ->
  tidy s = true -> all_chars (is_not a) s = true.
Proof.
  intros Ha. apply all_chars_impl. intros c Hc.
  destruct (tidy_char_parts c Hc) as [_ [H1 [H2 H3]]].
  destruct Ha as [-> | [-> | ->]]; assumption.
Qed.

Lemma tidy_no_space (s : string) :
  tidy s = true -> all_chars (fun c => negb (is_space c)) s = true.
Proof.
  apply all_chars_impl. intros c Hc.
  destruct (tidy_char_parts c Hc) as [H _]. now rewrite H.
Qed.

Lemma plain_tidy (s : string) : plain s = true -> tidy s = true.
Proof.
  apply all_chars_impl. unfold plain_char. intros c H.
  apply andb_prop in H. destruct H as [H _].
  apply andb_prop in H. now destruct H.
Qed.

Lemma plain_no (a : ascii) (s : string) :
  a = "#"%char \/ a = "?"%char ->
  plain s = true -> all_chars (is_not a) s = true.
Proof.
  intros Ha. apply all_chars_impl. unfold plain_char. intros c H.
  apply andb_prop in H. destruct H as [H H2].
  apply andb_prop in H. destruct H as [_ H1].
  destruct Ha as [-> | ->]; assumption.
Qed.

(** *** trim *)

Lemma trimStart_blank (ws s : string) :
  blank ws = true -> trimStart (ws ++ s) = trimStart s.
Proof.
  induction ws as [|c ws IH]; cbn; [reflexivity|]. intros H.
  apply andb_prop in H. destruct H as [Hc Hws]. rewrite Hc. now apply IH.
Qed.

Lemma trimEnd_blank (ws : string) : blank ws = true -> trimEnd ws = EmptyString.
Proof.
  induction ws as [|c ws IH]; cbn; [reflexivity|]. intros H.
  apply andb_prop in H. destruct H as [Hc Hws]. now rewrite (IH Hws), Hc.
Qed.

Lemma trimEnd_no_space (s ws : string) :
  all_chars (fun c => negb (is_space c)) s = true ->
  blank ws = true ->
  trimEnd (s ++ ws) = s.
Proof.
  intros Hs Hws. induction s as [|c s IH]; cbn [append].
  - now apply trimEnd_blank.
  - cbn in Hs. apply andb_prop in Hs. destruct Hs as [Hc Hs].
    apply negb_true_iff in Hc. cbn [trimEnd]. rewrite (IH Hs).
    destruct s; [now rewrite Hc | reflexivity].
Qed.

Lemma trimStart_no_space (s : string) :
  all_chars (fun c => negb (is_space c)) s = true -> trimStart s = s.
Proof.
  destruct s as [|c s]; cbn; [reflexivity|]. intros H.
  apply andb_prop in H. destruct H as [Hc _].
  apply negb_true_iff in Hc. now rewrite Hc.
Qed.

Lemma trim_no_space (ws s ws' : string) :
  blank ws = true ->
  all_chars (fun c => negb (is_space c)) s = true ->
  blank ws' = true ->
  trim (ws ++ s ++ ws') = s.
Proof.
  intros Hws Hs Hws'. unfold trim. rewrite (trimStart_blank ws _ Hws).
  destruct s as [|c s].
  - cbn [append]. replace (trimStart ws') with EmptyString; [reflexivity|].
    clear Hs Hws. induction ws' as [|c ws' IH]; cbn; [reflexivity|].
    cbn in Hws'. apply andb_prop in Hws'. destruct Hws' as [Hc Hw]. rewrite Hc.
    now apply IH.
  - assert (Hstart : trimStart (String c s ++ ws') = String c s ++ ws').
    { cbn in Hs |- *. apply andb_prop in Hs. destruct Hs as [Hc _].
      apply negb_true_iff in Hc. now rewrite Hc. }
    rewrite Hstart. now apply trimEnd_no_space.
Qed.

Lemma trim_id (s : string) :
  all_chars (fun c => negb (is_space c)) s = true -> trim s = s.
Proof.
  intros H. pose proof (trim_no_space EmptyString s EmptyString eq_refl H eq_refl) as Ht.
  cbn [append] in Ht. now rewrite append_nil_r in Ht.
Qed.

(** *** The three replacements *)

Lemma prefix_other_head (a : ascii) (p s : string) :
  all_chars (is_not a) s = true -> String.prefix (String a p) s = false.
Proof.
  destruct s as [|c s]; cbn; [reflexivity|]. intros H.
  apply andb_prop in H. destruct H as [Hc _].
  unfold is_not in Hc. apply negb_true_iff in Hc. apply Ascii.eqb_neq in Hc.
  destruct (ascii_dec a c); [congruence | reflexivity].
Qed.

Lemma eqb_other_head (a c : ascii) (p r : string) :
  is_not a c = true -> String.eqb (String c r) (String a p) = false.
Proof.
  unfold is_not. intros H. apply negb_true_iff in H.
  apply String.eqb_neq. intros E. injection E as -> _.
  now rewrite Ascii.eqb_refl in H.
Qed.

Lemma strip_suffix_absent (a : ascii) (p s : string) :
  all_chars (is_not a) s = true -> strip_suffix (String a p) s = s.
Proof.
  induction s as [|c s IH]; [reflexivity|]. cbn [all_chars]. intros H.
  apply andb_prop in H. destruct H as [Hc Hs].
  cbn [strip_suffix]. rewrite (eqb_other_head a c p s Hc). now rewrite (IH Hs).
Qed.

Lemma strip_suffix_present (a : ascii) (p s : string) :
  all_chars (is_not a) s = true ->
  strip_suffix (String a p) (s ++ String a p) = s.
Proof.
  induction s as [|c s IH].
  - intros _. cbn [append]. unfold strip_suffix. now rewrite String.eqb_refl.
  - cbn [all_chars append]. intros H.
    apply andb_prop in H. destruct H as [Hc Hs].
    cbn [strip_suffix]. rewrite (eqb_other_head a c p _ Hc). now rewrite (IH Hs).
Qed.

Lemma ansi_match_other_head (s : string) :
  all_chars (is_not ESC) s = true -> ansi_match s = None.
Proof.
  destruct s as [|c [|b s]]; cbn [ansi_match all_chars]; try reflexivity.
  intros H. apply andb_prop in H. destruct H as [Hc _].
  unfold is_not in Hc. apply negb_true_iff in Hc. now rewrite Hc.
Qed.

Lemma strip_ansi_absent (fuel : nat) (s : string) :
  all_chars (is_not ESC) s = true -> strip_ansi fuel s = s.
Proof.
  revert s. induction fuel as [|k IH]; intros s H; [reflexivity|].
  cbn [strip_ansi]. rewrite (ansi_match_other_head s H).
  destruct s as [|c s]; [reflexivity|].
  cbn in H. apply andb_prop in H. destruct H as [_ Hs]. now rewrite (IH s Hs).
Qed.

(** The tail of the pipeline on a tidy text. *)
Lemma clean_tail_tidy (s : string) :
  tidy s = true ->
  trim (remove_ansi (strip_suffix "_" s)) = s.
Proof.
  intros H.
  rewrite (strip_suffix_absent _ _ s (tidy_no "_"%char s (or_intror (or_intror eq_refl)) H)).
  unfold remove_ansi.
  rewrite (strip_ansi_absent _ s (tidy_no ESC s (or_introl eq_refl) H)).
  apply trim_id. now apply tidy_no_space.
Qed.

Lemma strip_markers_absent (s : string) :
  tidy s = true ->
  strip_suffix "[201~" (strip_prefix "[200~" s) = s.
Proof.
  intros H.
  pose proof (tidy_no "["%char s (or_intror (or_introl eq_refl)) H) as Hb.
  unfold strip_prefix. rewrite (prefix_other_head _ _ s Hb).
  now apply strip_suffix_absent.
Qed.

Lemma clean_tidy (s : string) : tidy s = true -> clean s = s.
Proof.
  intros H. unfold clean.
  rewrite (trim_id s (tidy_no_space s H)), (strip_markers_absent s H).
  now apply clean_tail_tidy.
Qed.

Lemma clean_tidy_pasted (s : string) :
  tidy s = true -> clean ("[200~" ++ s ++ "[201~") = s.
Proof.
  intros H.
  pose proof (tidy_no_space s H) as Hsp.
  pose proof (tidy_no "["%char s (or_intror (or_introl eq_refl)) H) as Hb.
  unfold clean. rewrite (trim_id ("[200~" ++ s ++ "[201~")).
  2:{ rewrite !all_chars_app, Hsp. reflexivity. }
  unfold strip_prefix. rewrite prefix_append. cbn [String.length slice append].
  rewrite (strip_suffix_present _ _ s Hb). now apply clean_tail_tidy.
Qed.


(** *** Code and state *)

Lemma includes_absent (a : ascii) (p s : string) :
  all_chars (is_not a) s = true -> includes s (String a p) = false.
Proof.
  induction s as [|c s IH]; [reflexivity|]. intros H.
  cbn [includes]. rewrite (prefix_other_head a p _ H).
  cbn in H. apply andb_prop in H. destruct H as [_ Hs]. now rewrite (IH Hs).
Qed.

Lemma includes_present (s p t : string) : includes (s ++ p ++ t) p = true.
Proof.
  induction s as [|c s IH].
  - cbn [append]. destruct (p ++ t) eqn:E; cbn [includes]; rewrite <- E;
      now rewrite prefix_append.
  - cbn [append includes]. rewrite IH. apply orb_true_r.
Qed.

Lemma split_on_absent (d : ascii) (s : string) :
  all_chars (is_not d) s = true -> split_on d s = [s].
Proof.
  induction s as [|c s IH]; [reflexivity|]. cbn [all_chars]. intros H.
  apply andb_prop in H. destruct H as [Hc Hs].
  unfold is_not in Hc. apply negb_true_iff in Hc.
  cbn [split_on]. now rewrite Hc, (IH Hs).
Qed.

Lemma split_on_present (d : ascii) (a b : string) :
  all_chars (is_not d) a = true ->
  split_on d (a ++ String d b) = a :: split_on d b.
Proof.
  induction a as [|c a IH].
  - intros _. cbn [append split_on]. now rewrite Ascii.eqb_refl.
  - cbn [all_chars append]. intros H.
    apply andb_prop in H. destruct H as [Hc Ha].
    unfold is_not in Hc. apply negb_true_iff in Hc.
    cbn [split_on]. now rewrite Hc, (IH Ha).
Qed.

Section Parsing.

Variable URL_searchParams : string -> option (string -> option string).

Lemma parse_code_state (code st : string) :
  plain code = true -> plain st = true ->
  parse_input URL_searchParams (code ++ "#" ++ st) = Ok (code, st).
Proof.
  intros Hc Hs. unfold parse_input.
  rewrite includes_absent.
  2:{ rewrite !all_chars_app,
        (plain_no "?"%char code (or_intror eq_refl) Hc),
        (plain_no "?"%char st (or_intror eq_refl) Hs).
      reflexivity. }
  rewrite (includes_present code "#" st).
  change (code ++ "#" ++ st) with (code ++ String "#"%char st).
  rewrite (split_on_present "#"%char code st
             (plain_no "#"%char code (or_introl eq_refl) Hc)).
  rewrite (split_on_absent "#"%char st (plain_no "#"%char st (or_introl eq_refl) Hs)).
  cbn [nth nth_error]. now rewrite or_str_empty.
Qed.

Lemma parse_bare_code (code : string) :
  plain code = true ->
  parse_input URL_searchParams code = Ok (code, EmptyString).
Proof.
  intros Hc. unfold parse_input.
  rewrite (includes_absent "?"%char "code=" code
             (plain_no "?"%char code (or_intror eq_refl) Hc)).
  now rewrite (includes_absent "#"%char EmptyString code
                 (plain_no "#"%char code (or_introl eq_refl) Hc)).
Qed.


End Parsing.

End CleaningFacts.



(* ================================================================== *)
(** ** Validation of the selected auth method *)
(* ================================================================== *)

Lemma hasValid_empty_store (token_endpoint : TokenRequest -> Fetch TokenResponse)
    (w : World) :
  authFile w = None ->
  hasValidAnthropicTokens token_endpoint w = (Ok false, w).
Proof.
  intros Hf. run_m. destruct w. cbn in Hf |- *. now rewrite Hf.
Qed.

Section ValidationFacts.

Variables LOGIN_WITH_GOOGLE_PERSONAL USE_GEMINI USE_VERTEX_AI
          USE_ANTHROPIC_CLAUDE : string.
Variable token_endpoint : TokenRequest -> Fetch TokenResponse.

Hypothesis not_google : USE_ANTHROPIC_CLAUDE <> LOGIN_WITH_GOOGLE_PERSONAL.
Hypothesis not_gemini : USE_ANTHROPIC_CLAUDE <> USE_GEMINI.
Hypothesis not_vertex : USE_ANTHROPIC_CLAUDE <> USE_VERTEX_AI.

(** X22.  For the Anthropic method the two validations look at different
    things.  The synchronous one accepts exactly when ANTHROPIC_API_KEY is
    set; the asynchronous one, which the dialog calls, accepts exactly when
    the token lookup gives a token, and does not look at the key: with a
    key and an empty store the first accepts and the second asks for
    OAuth.  For every other method the asynchronous validation is the
    synchronous one and changes nothing. *)
Theorem anthropic_validations_differ (env : Env) (w : World) :
  validateAuthMethod LOGIN_WITH_GOOGLE_PERSONAL USE_GEMINI USE_VERTEX_AI
    USE_ANTHROPIC_CLAUDE env w USE_ANTHROPIC_CLAUDE
  = (if truthy_opt (env_ANTHROPIC_API_KEY w) then None else Some OAUTH_REQUIRED)
  /\ (forall valid w1,
         hasValidAnthropicTokens token_endpoint w = (Ok valid, w1) ->
         validateAuthMethodAsync LOGIN_WITH_GOOGLE_PERSONAL USE_GEMINI USE_VERTEX_AI
           USE_ANTHROPIC_CLAUDE token_endpoint env USE_ANTHROPIC_CLAUDE w
         = (Ok (if valid then None else Some OAUTH_REQUIRED), w1))
  /\ (truthy_opt (env_ANTHROPIC_API_KEY w) = true -> authFile w = None ->
      validateAuthMethod LOGIN_WITH_GOOGLE_PERSONAL USE_GEMINI USE_VERTEX_AI
        USE_ANTHROPIC_CLAUDE env w USE_ANTHROPIC_CLAUDE = None
      /\ validateAuthMethodAsync LOGIN_WITH_GOOGLE_PERSONAL USE_GEMINI USE_VERTEX_AI
           USE_ANTHROPIC_CLAUDE token_endpoint env USE_ANTHROPIC_CLAUDE w
         = (Ok (Some OAUTH_REQUIRED), w))
  /\ (forall method, method <> USE_ANTHROPIC_CLAUDE ->
         validateAuthMethodAsync LOGIN_WITH_GOOGLE_PERSONAL USE_GEMINI USE_VERTEX_AI
           USE_ANTHROPIC_CLAUDE token_endpoint env method w
         = (Ok (validateAuthMethod LOGIN_WITH_GOOGLE_PERSONAL USE_GEMINI USE_VERTEX_AI
                  USE_ANTHROPIC_CLAUDE env w method), w)).
Proof.
  assert (Hsync : validateAuthMethod LOGIN_WITH_GOOGLE_PERSONAL USE_GEMINI USE_VERTEX_AI
      USE_ANTHROPIC_CLAUDE env w USE_ANTHROPIC_CLAUDE
                  = (if truthy_opt (env_ANTHROPIC_API_KEY w)
                     then None else Some OAUTH_REQUIRED)).
  { unfold validateAuthMethod.
    apply String.eqb_neq in not_google, not_gemini, not_vertex.
    now rewrite not_google, not_gemini, not_vertex, String.eqb_refl. }
  assert (Hasync : forall valid w1,
             hasValidAnthropicTokens token_endpoint w = (Ok valid, w1) ->
             validateAuthMethodAsync LOGIN_WITH_GOOGLE_PERSONAL USE_GEMINI USE_VERTEX_AI
      USE_ANTHROPIC_CLAUDE token_endpoint env USE_ANTHROPIC_CLAUDE w
             = (Ok (if valid then None else Some OAUTH_REQUIRED), w1)).
  { intros valid w1 Hv. unfold validateAuthMethodAsync.
    rewrite String.eqb_refl. unfold bindM, ret. rewrite Hv. now destruct valid. }
  split; [exact Hsync|]. split; [exact Hasync|]. split.
  - intros Hkey Hfile. rewrite Hsync, Hkey. split; [reflexivity|].
    apply (Hasync false w). now apply hasValid_empty_store.
  - intros method Hm. unfold validateAuthMethodAsync.
    apply String.eqb_neq in Hm. now rewrite Hm.
Qed.

End ValidationFacts.

Lemma anthropic_validations_differ_witness :
  validateAuthMethod "oauth-personal" "gemini-api-key" "vertex-ai" "anthropic-claude"
    no_env with_env_key "anthropic-claude" = None
  /\ validateAuthMethodAsync "oauth-personal" "gemini-api-key" "vertex-ai"
       "anthropic-claude" offline no_env "anthropic-claude" with_env_key
     = (Ok (Some OAUTH_REQUIRED), with_env_key).
Proof.
  destruct (anthropic_validations_differ "oauth-personal" "gemini-api-key" "vertex-ai"
              "anthropic-claude" offline ltac:(discriminate) ltac:(discriminate)
              ltac:(discriminate) no_env with_env_key) as [_ [_ [H _]]].
  exact (H eq_refl eq_refl).
Defined.

(* ================================================================== *)
(** ** The stand-alone login script *)
(* ================================================================== *)

Section ScriptFacts.

Variable URL_searchParams : string -> option (string -> option string).
Variable makeRequest : TokenRequest -> Outcome Reply.
Variable JSON_parse : string -> Outcome TokenResponse.
Variable token_endpoint : TokenRequest -> Fetch TokenResponse.



End ScriptFacts.


